(** * DeZog: reverse-debugging core

    A shallow embedding of the parts of DeZog that the specification talks
    about, and the properties proved (or refuted) about them.

    Part I is the model, one module per source unit:
    - [Js]: the JavaScript primitives the modelled code uses;
    - [ZxSimCpuHistory]: the ring buffer of the simulator's instruction
      history (class ZxSimCpuHistory);
    - [Paging]: the bank descriptors of the memory models
      (src/remotes/Paging/memorymodel.ts and the custom memory models);
    - [ZesaruxEmulator]: CALL/RST detection, the virtual call stack used
      during reverse debugging, breakpoint ids and watchpoints
      (class ZesaruxEmulator).

    Part II holds the properties: [JsFacts], [HistoryProofs],
    [PagingProofs] and [ZesaruxProofs].

    JavaScript numbers are modelled by [Z]: every number the modelled code
    computes is an integer far below 2^31, where the double and int32
    operations of JavaScript agree with the ones on [Z].  [undefined] is
    [None]. *)

From Stdlib Require Import ZArith List String Ascii Bool Lia.
Import ListNotations.
Local Open Scope Z_scope.

(** * Part I: the model *)

(** ** JavaScript primitives used by the modelled code *)
Module Js.

(** [a.length] *)
Definition len {T : Type} (a : list T) : Z := Z.of_nat (List.length a).

Section Arrays.
Context {A : Type}.

(** [a[i]]: [undefined] outside of the array. *)
Definition get (a : list (option A)) (i : Z) : option A :=
  if i <? 0 then None
  else match nth_error a (Z.to_nat i) with
       | Some x => x
       | None => None
       end.

Fixpoint replace (a : list (option A)) (n : nat) (x : option A)
  : list (option A) :=
  match a, n with
  | [], _ => []
  | _ :: r, O => x :: r
  | y :: r, S m => y :: replace r m x
  end.

(** [a[i] = x].  Inside the array the element is replaced.  At or behind
    the end JavaScript extends the array, the skipped elements are holes
    (they read as [undefined]).  A negative index creates a property that
    is not an element: elements and length stay as they are. *)
Definition set (a : list (option A)) (i : Z) (x : option A)
  : list (option A) :=
  if i <? 0 then a
  else if i <? len a then replace a (Z.to_nat i) x
  else a ++ repeat None (Z.to_nat (i - len a)) ++ [x].

(** [a.push(x)] *)
Definition push (a : list (option A)) (x : option A) : list (option A) :=
  a ++ [x].

End Arrays.

(** *** Numbers and strings *)

(** A JavaScript number that may be [NaN]: [None] is [NaN]. *)
Definition number : Type := option Z.

(** [ToInt32], as the bit operators apply it to their operands: [NaN]
    becomes 0, other numbers wrap to 32 bits, two's complement. *)
Definition toInt32 (x : number) : Z :=
  match x with
  | None => 0
  | Some z => (z + 2 ^ 31) mod 2 ^ 32 - 2 ^ 31
  end.

(** [x == c] and [x != c] for a constant [c]: [NaN] equals nothing. *)
Definition eqNum (x : number) (c : Z) : bool :=
  match x with
  | None => false
  | Some z => z =? c
  end.

Definition neNum (x : number) (c : Z) : bool := negb (eqNum x c).

(** The digit of value [d], as [Number.prototype.toString] writes it. *)
Definition digitChar (d : Z) : ascii :=
  nth (Z.to_nat d)
      (list_ascii_of_string "0123456789abcdefghijklmnopqrstuvwxyz")
      "?"%char.

Fixpoint toDigits (fuel : nat) (radix n : Z) (acc : string) : string :=
  match fuel with
  | O => acc
  | S f =>
      let acc := String (digitChar (n mod radix)) acc in
      if n / radix =? 0 then acc else toDigits f radix (n / radix) acc
  end.

(** [n.toString(radix)] for an integer [n] and [2 <= radix <= 36]; a number
    below [2^k] has at most [k] digits, which bounds the recursion. *)
Definition toString (n radix : Z) : string :=
  let digits m := toDigits (S (Z.to_nat (Z.log2 m))) radix m EmptyString in
  if n <? 0 then String "-"%char (digits (- n)) else digits n.

(** The value of a hexadecimal digit. *)
Definition hexDigitValue (c : ascii) : option Z :=
  let n := Z.of_nat (nat_of_ascii c) in
  if (48 <=? n) && (n <=? 57) then Some (n - 48)
  else if (65 <=? n) && (n <=? 70) then Some (n - 55)
  else if (97 <=? n) && (n <=? 102) then Some (n - 87)
  else None.

Definition isWhiteSpace (c : ascii) : bool :=
  let n := Z.of_nat (nat_of_ascii c) in
  (n =? 32) || ((9 <=? n) && (n <=? 13)).

Fixpoint skipWhiteSpace (s : string) : string :=
  match s with
  | String c r => if isWhiteSpace c then skipWhiteSpace r else s
  | EmptyString => s
  end.

(** The value of the longest prefix of hexadecimal digits, after [acc];
    [None] when there is no digit at all. *)
Fixpoint hexDigits (s : string) (acc : option Z) : option Z :=
  match s with
  | String c r =>
      match hexDigitValue c with
      | Some d =>
          hexDigits r (Some (16 * match acc with Some a => a | None => 0 end
                             + d))
      | None => acc
      end
  | EmptyString => acc
  end.

(** [parseInt(s, 16)]: white space is skipped, then a sign and a [0x]
    prefix are accepted, then the digits are read up to the first character
    that is none; the result is [NaN] when no digit is found. *)
Definition parseInt16 (s : string) : number :=
  let s := skipWhiteSpace s in
  let '(neg, s) :=
    match s with
    | String "-"%char r => (true, r)
    | String "+"%char r => (false, r)
    | _ => (false, s)
    end in
  let s :=
    match s with
    | String "0"%char (String "x"%char r) => r
    | String "0"%char (String "X"%char r) => r
    | _ => s
    end in
  match hexDigits s None with
  | Some v => Some (if neg then - v else v)
  | None => None
  end.

(** [s.substr(start, length)] *)
Definition substr (s : string) (start length : nat) : string :=
  substring start length s.

(** [s.indexOf(c)] for a single character [c] *)
Definition indexOf (s : string) (c : ascii) : Z :=
  match index 0 (String c EmptyString) s with
  | Some i => Z.of_nat i
  | None => -1
  end.

(** [s.startsWith(p)] *)
Definition startsWith (s p : string) : bool := prefix p s.

(** [a.map((x, i) => f(x, i))], the indices counted from [i]. *)
Fixpoint mapi_from {A B : Type} (i : Z) (f : A -> Z -> B) (a : list A)
  : list B :=
  match a with
  | [] => []
  | x :: r => f x i :: mapi_from (i + 1) f r
  end.

Definition mapi {A B : Type} (f : A -> Z -> B) (a : list A) : list B :=
  mapi_from 0 f a.

End Js.


(** ** The instruction history of the internal simulator
    (class ZxSimCpuHistory, which extends CpuHistoryClass) *)
Module ZxSimCpuHistory.

Section History.
(** [HistoryInstructionInfo], one line of history, and the frame list of
    the virtual call stack; both are declared outside of the modelled
    class. *)
Variable Info : Type.
Variable RefList : Type.

(** The fields of the object.  [history], [historyIndex], [maxSize],
    [revDbgHistory] and [reverseDbgStack] are inherited from
    CpuHistoryClass, [historyWriteIndex] is declared by ZxSimCpuHistory.
    The oldest item is at 0, the youngest at [historyWriteIndex]. *)
Record t : Type := mk {
  history : list (option Info);
  historyIndex : Z;
  historyWriteIndex : Z;
  maxSize : Z;
  revDbgHistory : list Z;
  reverseDbgStack : option RefList
}.

(** Modelled from the spec: CpuHistoryClass.init (the [super.init()] of
    [init]) is not part of the sources; the specification says that init
    resets to empty with the read cursor live. *)
Definition super_init (s : t) : t :=
  mk [] (-1) (historyWriteIndex s) (maxSize s)
     (revDbgHistory s) (reverseDbgStack s).

(** [init()] *)
Definition init (s : t) : t :=
  let s := super_init s in
  mk (history s) (historyIndex s) (-1) (maxSize s)
     (revDbgHistory s) (reverseDbgStack s).

(** [clear()]: the body of the immediately invoked async function has no
    [await] and runs to its end before [clear] returns. *)
Definition clear (s : t) : t :=
  mk (history s) (-1) (historyWriteIndex s) (maxSize s) [] None.

(** [getPrevRegistersAsync()]: the returned registers and the new state. *)
Definition getPrevRegistersAsync (s : t) : option Info * t :=
  let index := historyIndex s in
  if index <? 0 then
    (* First step *)
    let index := historyWriteIndex s in
    (Js.get (history s) index,
     mk (history s) index (historyWriteIndex s) (maxSize s)
        (revDbgHistory s) (reverseDbgStack s))
  else
    let index := index - 1 in
    let index := if index <? 0 then Js.len (history s) - 1 else index in
    if index =? historyWriteIndex s then (None, s)
    else
      (Js.get (history s) index,
       mk (history s) index (historyWriteIndex s) (maxSize s)
          (revDbgHistory s) (reverseDbgStack s)).

(** [getNextRegisters()] *)
Definition getNextRegisters (s : t) : option Info * t :=
  let index := historyIndex s in
  if index =? historyWriteIndex s then
    (None,
     mk (history s) (-1) (historyWriteIndex s) (maxSize s)
        (revDbgHistory s) (reverseDbgStack s))
  else
    let index := index + 1 in
    let index := if index >=? Js.len (history s) then 0 else index in
    (Js.get (history s) index,
     mk (history s) index (historyWriteIndex s) (maxSize s)
        (revDbgHistory s) (reverseDbgStack s)).

(** [pushHistoryInfo(line, exchange)] *)
Definition pushHistoryInfo (line : Info) (exchange : bool) (s : t) : t :=
  if exchange && (Js.len (history s) >? 0) then
    (* Exchange *)
    mk (Js.set (history s) (historyWriteIndex s) (Some line))
       (historyIndex s) (historyWriteIndex s) (maxSize s)
       (revDbgHistory s) (reverseDbgStack s)
  else if Js.len (history s) >=? maxSize s then
    let index := historyWriteIndex s + 1 in
    (* Check for overflow *)
    let index := if index >=? maxSize s then 0 else index in
    mk (Js.set (history s) index (Some line))
       (historyIndex s) index (maxSize s)
       (revDbgHistory s) (reverseDbgStack s)
  else
    (* Not yet reached, so grow the array *)
    mk (Js.push (history s) (Some line))
       (historyIndex s) (historyWriteIndex s + 1) (maxSize s)
       (revDbgHistory s) (reverseDbgStack s).

(** Pushing the lines of a list, oldest first, with [exchange=false]. *)
Definition pushAll (lines : list Info) (s : t) : t :=
  fold_left (fun s line => pushHistoryInfo line false s) lines s.

(** The state of a freshly initialised history of capacity [m]. *)
Definition fresh (m : Z) : t := init (mk [] 0 0 m [] None).

(** The read cursor is live (no reverse debugging in progress). *)
Definition live (s : t) : Prop := historyIndex s = -1.

(** What holds of every state the operations can reach: both cursors
    point into the buffer (or are -1), and an empty buffer has never been
    written. *)
Definition wf (s : t) : Prop :=
  (history s = [] /\ historyWriteIndex s = -1 /\ historyIndex s = -1)
  \/ (0 <= historyWriteIndex s < Js.len (history s)
      /\ -1 <= historyIndex s < Js.len (history s)).

(** The invariant of the class for a history of positive capacity: the
    cursors are well formed and the buffer is not longer than [maxSize]. *)
Definition invariant (s : t) : Prop :=
  wf s /\ 0 < maxSize s /\ Js.len (history s) <= maxSize s.

(** The state with the read cursor moved to [i]. *)
Definition setHistoryIndex (s : t) (i : Z) : t :=
  mk (history s) i (historyWriteIndex s) (maxSize s)
     (revDbgHistory s) (reverseDbgStack s).

End History.

Arguments mk {Info RefList}.
Arguments setHistoryIndex {Info RefList}.
Arguments history {Info RefList}.
Arguments historyIndex {Info RefList}.
Arguments historyWriteIndex {Info RefList}.
Arguments maxSize {Info RefList}.
Arguments revDbgHistory {Info RefList}.
Arguments reverseDbgStack {Info RefList}.
Arguments init {Info RefList}.
Arguments clear {Info RefList}.
Arguments getPrevRegistersAsync {Info RefList}.
Arguments getNextRegisters {Info RefList}.
Arguments pushHistoryInfo {Info RefList}.
Arguments pushAll {Info RefList}.
Arguments fresh {Info RefList}.
Arguments live {Info RefList}.
Arguments wf {Info RefList}.
Arguments invariant {Info RefList}.

(** *** Concrete histories *)

(** Three lines pushed into a history of capacity 2. *)
Definition three_in_two : t Z unit := pushAll [10; 20; 30] (fresh 2).

(** Two lines pushed into a history of capacity 4, then two steps back:
    the read cursor is on the oldest line. *)
Definition rewound : t Z unit :=
  snd (getPrevRegistersAsync
         (snd (getPrevRegistersAsync (pushAll [11; 22] (fresh 4))))).

(** *** Sequences of calls *)

(** A call of one of the methods that change the history. *)
Inductive Call (Info : Type) : Type :=
| CallPush (line : Info) (exchange : bool)
| CallPrev
| CallNext
| CallClear.

Arguments CallPush {Info}.
Arguments CallPrev {Info}.
Arguments CallNext {Info}.
Arguments CallClear {Info}.

Definition call {Info RefList : Type} (c : Call Info) (s : t Info RefList)
  : t Info RefList :=
  match c with
  | CallPush line exchange => pushHistoryInfo line exchange s
  | CallPrev => snd (getPrevRegistersAsync s)
  | CallNext => snd (getNextRegisters s)
  | CallClear => clear s
  end.

(** The state after the calls [cs], first to last. *)
Definition calls {Info RefList : Type} (cs : list (Call Info))
  (s : t Info RefList) : t Info RefList :=
  fold_left (fun s c => call c s) cs s.

(** [k] calls of getPrevRegistersAsync in a row: what they return, first
    call first, and the state after the last one. *)
Fixpoint stepBacks {Info RefList : Type} (k : nat) (s : t Info RefList)
  : list (option Info) * t Info RefList :=
  match k with
  | O => ([], s)
  | S k' =>
      let '(r, s1) := getPrevRegistersAsync s in
      let '(rs, s2) := stepBacks k' s1 in
      (r :: rs, s2)
  end.

(** *** Addresses around the read cursor *)

Section Spot.
Context {Info RefList : Type}.

(** [this.getAddress(line)] of CpuHistoryClass and
    [Z80Registers.decoder.parsePC(line)], applied to whatever the array
    holds at the index, and [Settings.launch.history.spotCount]: all are
    declared outside of the modelled class. *)
Variable getAddress : option Info -> Z.
Variable parsePC : option Info -> Z.
Variable spotCount : Z.

(** [getPreviousAddress(i)]: the address of the i-th element before the
    current historyIndex, 0 = historyIndex. *)
Definition getPreviousAddress (i : Z) (s : t Info RefList) : option Z :=
  let len := Js.len (history s) in
  if len =? 0 then None
  else
    let k := historyIndex s - i in
    let k := if k <? 0 then k + len else k in
    if k =? historyWriteIndex s then None
    else Some (getAddress (Js.get (history s) k)).

(** The first loop of emitHistorySpot, before historyIndex: the addresses
    it pushes, for [todo] iterations that are still to come at [index]. *)
Fixpoint spotBefore (s : t Info RefList) (todo : nat) (index : Z) : list Z :=
  match todo with
  | O => []
  | S todo' =>
      let pc := parsePC (Js.get (history s) index) in
      let index := index - 1 in
      let index := if index <? 0 then Js.len (history s) - 1 else index in
      if index =? historyWriteIndex s then [pc]
      else pc :: spotBefore s todo' index
  end.

(** The second loop, after historyIndex: the index it ends at and the
    addresses, which it puts in front of [addresses]. *)
Fixpoint spotAfter (s : t Info RefList) (todo : nat) (index : Z)
  (addresses : list Z) : Z * list Z :=
  match todo with
  | O => (index, addresses)
  | S todo' =>
      if index =? historyWriteIndex s then (index, addresses)
      else
        let index := index + 1 in
        let index := if index >=? Js.len (history s) then 0 else index in
        let pc := parsePC (Js.get (history s) index) in
        spotAfter s todo' index (pc :: addresses)
  end.

(** How emitHistorySpot ends: with an exception (the assertion on a
    history without lines), or normally, with the arguments of the
    'historySpot' event if it emitted one. *)
Inductive SpotOutcome : Type :=
| SpotThrown
| SpotReturned (event : option (Z * list Z)).

(** [emitHistorySpot()] *)
Definition emitHistorySpot (s : t Info RefList) : SpotOutcome :=
  (* Check if history spot is enabled *)
  let count := spotCount in
  if count <=? 0 then SpotReturned None
  else
    let len := Js.len (history s) in
    if negb (len >? 0) then SpotThrown
    else
      let startIndex := historyIndex s in   (* historyIndex could be -1 *)
      let startIndex :=
        if startIndex <? 0 then historyWriteIndex s else startIndex in
      (* Before historyIndex: i runs from 0 to count *)
      let addresses := spotBefore s (Z.to_nat (count + 1)) startIndex in
      (* After historyIndex: i runs from 0 to count-1 *)
      let '(index, addresses) :=
        spotAfter s (Z.to_nat count) startIndex addresses in
      let convertedStartIndex := historyWriteIndex s - index in
      let convertedStartIndex :=
        if convertedStartIndex <? 0 then convertedStartIndex + len
        else convertedStartIndex in
      SpotReturned (Some (convertedStartIndex, addresses)).

End Spot.

End ZxSimCpuHistory.

(** ** The memory models (src/remotes/Paging/memorymodel.ts and the
    memory models of the custom memory) *)
Module Paging.

Local Open Scope string_scope.
Local Open Scope Z_scope.

(** Definition of one memory bank, i.e. memory slot/bank relationship:
    the Z80 start and end address of the page and the name of the mapped
    memory area. *)
Record MemoryBank : Type := mkBank {
  start : Z;
  end_ : Z;
  name : string
}.

(** What the memory model of a custom memory reads from its owner (class
    CustomMemory; the fields are inherited from SimulatedMemory): the
    current slot to bank assignment, which banks are ROM, the bank that
    stands for not populated memory (-1 when there is none) and, in the
    revision that marks slots, which slots are populated. *)
Record CustomMemory : Type := mkCustomMemory {
  slots : list Z;
  romBanks : list bool;
  notPopulatedBank : Z;
  populatedSlots : list bool
}.

(** The classes.  [MemoryModel slotCount memoryBanks] is the base class
    with its two constructor arguments; [CustomMemoryModel] is the class
    local to [CustomMemory.getMemoryModel] of the revisions that build the
    slots from address ranges, [CustomMemoryModelBySlot] the one of the
    revision that is given [slotCount] and [bankCount]. *)
Inductive MemoryModel : Type :=
| MemoryModelBase (slotCount : Z) (memoryBanks : option (list MemoryBank))
| Zx128MemoryModel (countSlots : Z)
| ZxNextMemoryModel
| CustomMemoryModel (owner : CustomMemory)
| CustomMemoryModelBySlot (owner : CustomMemory).

Definition Zx16MemoryModel : MemoryModel :=
  MemoryModelBase 4
    (Some [mkBank 0x0000 0x3FFF "ROM";
           mkBank 0x4000 0x7FFF "RAM";
           mkBank 0x8000 0xFFFF "N/A"]).

Definition Zx48MemoryModel : MemoryModel :=
  MemoryModelBase 4
    (Some [mkBank 0x0000 0x3FFF "ROM";
           mkBank 0x4000 0xFFFF "RAM"]).

(** The argument of [super(...)]: the number of slots. *)
Definition slotCount (m : MemoryModel) : Z :=
  match m with
  | MemoryModelBase n _ => n
  | Zx128MemoryModel n => n
  | ZxNextMemoryModel => 8
  | CustomMemoryModel owner => Js.len (slots owner)
  | CustomMemoryModelBySlot owner => Js.len (slots owner)
  end.

(** [this.bankSize = 0x10000/slotCount].  The quotient is the one of
    JavaScript when [slotCount] divides 0x10000; otherwise JavaScript
    computes a fraction, which this model does not follow. *)
Definition bankSize (m : MemoryModel) : Z := 0x10000 / slotCount m.

(** [a[i]] of an array of booleans used as a condition: [undefined]
    outside of the array, which is false. *)
Definition truthyAt (a : list bool) (i : Z) : bool :=
  if i <? 0 then false else nth (Z.to_nat i) a false.

(** [this.owner.romBanks.filter((b, i) => b && i !== notPopulatedBank).length] *)
Definition romCountExcept (romBanks : list bool) (notPopulated : Z) : Z :=
  Js.len (filter (fun b => b)
            (Js.mapi (fun b i => b && negb (i =? notPopulated)) romBanks)).

(** [getMemoryBanks(slots)]; [None] is [undefined], as argument and as
    result. *)
Definition getMemoryBanks (m : MemoryModel) (slots_ : option (list Z))
  : option (list MemoryBank) :=
  let describe (naming : Z -> Z -> string) (l : list Z) :=
    Js.mapi (fun bank i =>
               let start := i * bankSize m in
               let end_ := start + bankSize m - 1 in
               mkBank start end_ (naming bank i)) l in
  match m with
  | MemoryModelBase _ memoryBanks => memoryBanks
  | Zx128MemoryModel _ =>
      match slots_ with
      | Some l =>
          Some (describe
                  (fun bankIdx i =>
                     if i =? 0 then "ROM" ++ Js.toString (Z.land bankIdx 0x01) 10
                     else "BANK" ++ Js.toString bankIdx 10) l)
      | None => Some []
      end
  | ZxNextMemoryModel =>
      match slots_ with
      | Some l =>
          Some (describe
                  (fun bank _ =>
                     if bank >=? 254 then "ROM"
                     else "BANK" ++ Js.toString bank 10) l)
      | None => Some []
      end
  | CustomMemoryModel owner =>
      let l := match slots_ with Some l => l | None => slots owner end in
      let romCount := romCountExcept (romBanks owner) (notPopulatedBank owner) in
      let ramCount := Js.len (romBanks owner) - romCount in
      Some (describe
              (fun bank _ =>
                 if bank =? notPopulatedBank owner then "N/A"
                 else if truthyAt (romBanks owner) bank then
                   (if romCount >? 1 then "ROM" ++ Js.toString bank 10
                    else "ROM")
                 else
                   (if ramCount >? 1 then "BANK" ++ Js.toString bank 10
                    else "RAM")) l)
  | CustomMemoryModelBySlot owner =>
      let l := match slots_ with Some l => l | None => slots owner end in
      let romCount := Js.len (filter (fun b => b) (romBanks owner)) in
      let ramCount := Js.len (romBanks owner) - romCount in
      Some (describe
              (fun bank i =>
                 if negb (truthyAt (populatedSlots owner) i) then "N/A"
                 else if truthyAt (romBanks owner) bank then
                   (if romCount >? 1 then "ROM" ++ Js.toString bank 10
                    else "ROM")
                 else
                   (if ramCount >? 1 then "BANK" ++ Js.toString bank 10
                    else "RAM")) l)
  end.

(** *** What the descriptors are to satisfy *)

(** The descriptors of [l] continue a range that ended at [prevEnd]
    without gap or overlap, none is empty, and the last one ends at
    0xFFFF. *)
Fixpoint chained (prevEnd : Z) (l : list MemoryBank) : bool :=
  match l with
  | [] => prevEnd =? 0xFFFF
  | b :: r =>
      (start b =? prevEnd + 1) && (start b <=? end_ b) && chained (end_ b) r
  end.

(** [l] partitions the addresses 0..0xFFFF, in ascending order. *)
Definition partitions16 (l : list MemoryBank) : bool :=
  match l with
  | [] => false
  | _ => chained (-1) l
  end.

(** The address [a] lies in the descriptor [b]. *)
Definition covers (b : MemoryBank) (a : Z) : Prop := start b <= a <= end_ b.

(** A slot count that splits the 64k into banks of equal size. *)
Definition validSlotCount (n : Z) : Prop := 0 < n /\ 0x10000 mod n = 0.

(** The concrete memory models: the two fixed ones, the paged ones and the
    ones of a custom memory, each with a slot count that splits the 64k. *)
Inductive Concrete : MemoryModel -> Prop :=
| concrete_zx16 : Concrete Zx16MemoryModel
| concrete_zx48 : Concrete Zx48MemoryModel
| concrete_zx128 n : validSlotCount n -> Concrete (Zx128MemoryModel n)
| concrete_zxnext : Concrete ZxNextMemoryModel
| concrete_custom owner :
    validSlotCount (Js.len (slots owner)) ->
    Concrete (CustomMemoryModel owner)
| concrete_custom_by_slot owner :
    validSlotCount (Js.len (slots owner)) ->
    Concrete (CustomMemoryModelBySlot owner).

(** A slot assignment for [m] gives one bank to each slot.  The fixed
    models do not look at it. *)
Definition assignmentFor (m : MemoryModel) (l : list Z) : Prop :=
  match m with
  | MemoryModelBase _ _ => True
  | _ => Js.len l = slotCount m
  end.

(** The same, spelled out: the first descriptor starts at 0, the last one
    ends at 0xFFFF, each one starts right behind its predecessor, and every
    address of the 64k lies in one descriptor and in no second one. *)
Definition ExactPartition (l : list MemoryBank) : Prop :=
  (exists b r, l = b :: r /\ start b = 0) /\
  (forall d, end_ (last l d) = 0xFFFF) /\
  (forall i b c, nth_error l i = Some b -> nth_error l (S i) = Some c ->
     start b < start c /\ start c = end_ b + 1) /\
  (forall a, 0 <= a <= 0xFFFF ->
     exists i b, nth_error l i = Some b /\ covers b a /\
       forall j c, nth_error l j = Some c -> covers c a -> j = i).

(** *** The decoders that init registers *)

(** [x >>> k] for a shift count [0 <= k < 32]: the operand is taken as an
    unsigned 32 bit number. *)
Definition ushr (x k : Z) : Z := Z.shiftr (x mod 2 ^ 32) k.

(** [slots[i]] for an array of numbers: [NaN]-like [None] stands for
    [undefined]. *)
Definition slotAt (slots_ : list Z) (i : Z) : Js.number :=
  if i <? 0 then None else nth_error slots_ (Z.to_nat i).

(** [x + 1] for a number that may be [undefined], giving [NaN] then. *)
Definition succNum (x : Js.number) : Js.number :=
  match x with
  | Some z => Some (z + 1)
  | None => None
  end.

(** The first function that init hands to
    [Z80Registers.setSlotsAndBanks]: it calculates the long address.
    [shift] is 14 for the ZX128 model and 13 for the ZX Next model. *)
Definition longAddress (shift : Z) (address : Z) (slots_ : list Z) : Z :=
  (* Calculate long address *)
  let slotNr := ushr address shift in
  let bank := succNum (slotAt slots_ slotNr) in
  address + Js.toInt32 (Some (Z.shiftl (Js.toInt32 bank) 16)).

(** The second function: the slot index of an address. *)
Definition slotIndex (shift mask : Z) (addr : Z) : Z :=
  Z.land (ushr addr shift) mask.

(** [init()]: the two functions it registers; the base class, which the
    memory models of a custom memory inherit it from, registers
    [undefined] for both. *)
Definition init (m : MemoryModel)
  : option ((Z -> list Z -> Z) * (Z -> Z)) :=
  match m with
  | Zx128MemoryModel _ => Some (longAddress 14, slotIndex 14 0x03)
  | ZxNextMemoryModel => Some (longAddress 13, slotIndex 13 0x07)
  | _ => None
  end.

(** *** The slots of a custom memory (constructor of CustomMemory) *)

(** One slot as the constructor works on it (interface SlotInfo);
    [begin] and [end_] are the numbers that toNumber made of the range. *)
Record SlotInfo : Type := mkSlotInfo {
  rom : option string;
  begin : Z;
  end' : Z;
  size : Z;
  populated : bool;
  bankCount : Z;
  firstBank : Z;
  sizeInPages : Z
}.

(** A slot of the configuration with its range as numbers: the first
    [map] of the constructor. *)
Definition slotInfoOf (rom : option string) (range : Z * Z)
  (bankedCount : option Z) : SlotInfo :=
  let begin := fst range in
  let end' := snd range in
  let size := end' - begin + 1 in
  mkSlotInfo rom begin end' size true
    (match bankedCount with Some c => c | None => 1 end) (-1) (-1).

(** The slot that fills a gap. *)
Definition unpopulatedSlot (begin end' size : Z) : SlotInfo :=
  mkSlotInfo None begin end' size false 1 (-1) (-1).

(** Check overlapping and fill the gaps: the [reduce] of the constructor,
    at the slot that follows [prev] in the array.  [None] stands for the
    exception of a failed [Utility.assert]. *)
Fixpoint fillGaps (prev : option SlotInfo) (slots_ : list SlotInfo)
  : option (list SlotInfo) :=
  match slots_ with
  | [] => Some []
  | slot :: rest =>
      if negb (Z.rem (size slot) 1024 =? 0) then None
      else if negb ((begin slot >=? 0) && (end' slot <? 0x10000)) then None
      else if match prev with
              | Some p => negb (begin slot >? end' p)
              | None => false
              end then None
      else
        match rest with
        | next :: _ =>
            if negb (end' slot <? begin next) then None
            else
              let filler :=
                if end' slot + 1 <? begin next then
                  (* Fill unpopulated slot *)
                  [unpopulatedSlot (end' slot + 1) (begin next - 1)
                                   (begin next - end' slot - 1)]
                else [] in
              match fillGaps (Some slot) rest with
              | Some list => Some (slot :: filler ++ list)%list
              | None => None
              end
        | [] =>
            let filler :=
              if end' slot <? 0xffff then
                (* Fill unpopulated slot *)
                [unpopulatedSlot (end' slot + 1) 0xffff
                                 (0x10000 - end' slot - 1)]
              else [] in
            Some (slot :: filler)
        end
  end.

(** The slots that the constructor makes of the configuration [memModel],
    each slot of it given by its ROM file, its range as numbers and the
    bank count of its [banked] entry: the first [map] and the [reduce]. *)
Definition customSlots (memModel : list (option string * (Z * Z) * option Z))
  : option (list SlotInfo) :=
  fillGaps None
    (map (fun '(rom, range, bankedCount) => slotInfoOf rom range bankedCount)
         memModel).

(** What the assertions of the constructor ask of a configuration: every
    size is a multiple of 1K, every slot lies in the 64k, and each slot
    begins behind the end of the one before it. *)
Definition slotInRange (range : Z * Z) : Prop :=
  Z.rem (snd range - fst range + 1) 1024 = 0 /\
  0 <= fst range /\ snd range < 0x10000.

Fixpoint ascending (ranges : list (Z * Z)) : Prop :=
  match ranges with
  | a :: (b :: _) as rest => snd a < fst b /\ ascending rest
  | _ => True
  end.

(** The descriptor of a slot, without a name. *)
Definition bankOfSlot (slot : SlotInfo) : MemoryBank :=
  mkBank (begin slot) (end' slot) EmptyString.

(** Allocated non-populated bank: the loop of the constructor that gives
    every slot its first bank.  The state of the loop is the slots done so
    far, [this.notPopulatedBank] and [bankCount]. *)
Definition allocateBank (state : list SlotInfo * Z * Z) (slot : SlotInfo)
  : list SlotInfo * Z * Z :=
  let '(done, notPopulated, count) := state in
  let withFirstBank (b : Z) :=
    mkSlotInfo (rom slot) (begin slot) (end' slot) (size slot)
               (populated slot) (bankCount slot) b (sizeInPages slot) in
  if populated slot then
    ((done ++ [withFirstBank count])%list, notPopulated,
     count + bankCount slot)
  else if notPopulated <? 0 then
    ((done ++ [withFirstBank count])%list, count, count + 1)
  else
    ((done ++ [withFirstBank notPopulated])%list, notPopulated, count).

Definition allocateBanks (slots_ : list SlotInfo) : list SlotInfo * Z * Z :=
  fold_left allocateBank slots_ ([], -1, 0).

(** The banks that a slot occupies. *)
Definition usesBank (slot : SlotInfo) (b : Z) : Prop :=
  firstBank slot <= b < firstBank slot + bankCount slot.

(** *** decodeBankBits *)

(** [x << k]: the shift count is taken modulo 32 and the result wraps to
    32 bits. *)
Definition shl (x k : Z) : Z := Js.toInt32 (Some (Z.shiftl x (k mod 32))).

(** The loop of decodeBankBits at the bits [bitmap] that are still to be
    looked at, with the values of [ret] and [val]. *)
Fixpoint decodeBankBitsLoop (byte : Z) (bitmap : list Z) (ret val : Z) : Z :=
  match bitmap with
  | [] => ret
  | bit :: rest =>
      let mask := shl 1 bit in
      let ret :=
        if negb (Z.land (Js.toInt32 (Some byte)) mask =? 0) then ret + val
        else ret in
      decodeBankBitsLoop byte rest ret (shl val 1)
  end.

(** [decodeBankBits(byte, bitmap)] *)
Definition decodeBankBits (byte : Z) (bitmap : list Z) : Z :=
  decodeBankBitsLoop byte bitmap 0 1.

(** The paged models that register decoders, with the number of address
    bits that select the slot. *)
Definition slotBits (m : MemoryModel) : option Z :=
  match m with
  | Zx128MemoryModel 4 => Some 2
  | ZxNextMemoryModel => Some 3
  | _ => None
  end.

(** A configuration of two slots, a ROM and a RAM of four banks behind a
    gap, and the slots that the constructor makes of it. *)
Definition romAndBanked : list (option string * (Z * Z) * option Z) :=
  [(Some "rom.bin", (0, 0x3FFF), None); (None, (0x8000, 0xBFFF), Some 4)].

Definition romAndBankedSlots : list SlotInfo :=
  [mkSlotInfo (Some "rom.bin") 0 0x3FFF 0x4000 true 1 (-1) (-1);
   unpopulatedSlot 0x4000 0x7FFF 0x4000;
   mkSlotInfo None 0x8000 0xBFFF 0x4000 true 4 (-1) (-1);
   unpopulatedSlot 0xC000 0xFFFF 0x4000].

(** Two populated slots share no bank. *)
Definition disjointBanks (a b : SlotInfo) : Prop :=
  populated a = true -> populated b = true ->
  forall bank, ~ (usesBank a bank /\ usesBank b bank).

(** What the loop that allocates the banks keeps while it goes over the
    slots. *)
Definition allocated (state : list SlotInfo * Z * Z) : Prop :=
  let '(done, notPopulated, count) := state in
  0 <= count /\ -1 <= notPopulated < count /\
  Forall (fun slot => if populated slot
                      then 0 <= firstBank slot /\
                           firstBank slot + bankCount slot <= count /\
                           ~ usesBank slot notPopulated
                      else firstBank slot = notPopulated /\
                           0 <= notPopulated) done /\
  ForallOrdPairs disjointBanks done.

(** The range of a slot of the configuration. *)
Definition rangeOf (c : option string * (Z * Z) * option Z) : Z * Z :=
  snd (fst c).

End Paging.

(** ** The ZEsarUX remote (class ZesaruxEmulator) *)
Module ZesaruxEmulator.

Local Open Scope string_scope.
Local Open Scope Z_scope.

(** *** Constants *)

(** Max count of breakpoints of ZEsarUX. *)
Definition MAX_ZESARUX_BREAKPOINTS : Z := 100.

(** Max count of breakpoints. Note: Number 100 is used for stepOut. *)
Definition MAX_USED_BREAKPOINTS : Z := MAX_ZESARUX_BREAKPOINTS - 1.

(** The breakpoint used for step-out. *)
Definition STEP_BREAKPOINT_ID : Z := 100.

(** *** Frames *)

(** A frame of the call stack, [new Frame(addr, stackStartAddress, name)];
    [stack] holds the values found on the stack above the return address
    and is empty in a new frame.  (The class is declared in frame.ts, which
    is not part of the sources.) *)
Record Frame : Type := mkFrame {
  addr : Z;
  stackStartAddress : Z;
  name : string;
  stack : list Z
}.

Definition newFrame (addr stackStartAddress : Z) (name : string) : Frame :=
  mkFrame addr stackStartAddress name [].

(** *** The reply of ZEsarUX to read-memory *)

(** A hexadecimal digit in the case ZEsarUX happens to use. *)
Definition hexDigit (upper : bool) (d : Z) : ascii :=
  let c := Js.digitChar d in
  let n := nat_of_ascii c in
  if upper && (97 <=? n)%nat then ascii_of_nat (n - 32) else c.

Definition hexByte (upper : bool) (b : Z) : string :=
  String (hexDigit upper (b / 16))
    (String (hexDigit upper (b mod 16)) EmptyString).

(** Modelled from the spec: the socket to ZEsarUX (zSocket) is an external
    collaborator and not part of the sources.  The reply to
    [read-memory address size] is the bytes from [address] on, two
    hexadecimal digits each, the way getMemoryDump reads it.  [mem] is the
    memory of the emulated machine. *)
Fixpoint readMemory (upper : bool) (mem : Z -> Z) (address : Z) (size : nat)
  : string :=
  match size with
  | O => EmptyString
  | S n => hexByte upper (mem address mod 256)
             ++ readMemory upper mem (address + 1) n
  end.

(** *** findCallOrRst *)

(** The masks of the source are written in hexadecimal here: 0b11000111 is
    0xC7, 0b11000100 is 0xC4 and 0b00111000 is 0x38. *)

(** The loop of findCallOrRst over the last two bytes: it ends with a
    zero [opc12] or at the first low byte with the bits of a RST.  The
    result is [opc12] and [k] at the end of the loop, [None] when [fuel]
    iterations did not reach it. *)
Fixpoint rstLoop (fuel : nat) (opc12 : Js.number) (k : Z)
  : option (Js.number * Z) :=
  match fuel with
  | O => None
  | S f =>
      if Js.neNum opc12 0 then
        if Z.land (Js.toInt32 opc12) 0xC7 =? 0xC7 then
          Some (opc12, k)
        else
          (* Next *)
          rstLoop f (Some (Z.shiftr (Js.toInt32 opc12) 8)) (k + 1)
      else Some (opc12, k)
  end.

(** The handler of the reply [data] in findCallOrRst: the pair [(k, addr)]
    it passes on.
    k=3, addr: If a CALL was found, addr contains the call address.
    k=2/1, addr: If a RST was found, addr contains the RST address (p); k is
    the position, i.e. the RST was found at addr-k.
    k=0, addr=0: Neither CALL nor RST found. *)
Definition findCallOrRstReply (fuel : nat) (data : string) : option (Z * Z) :=
  (* Check for Call *)
  let opc3 := Js.parseInt16 (Js.substr data 0 2) in
  if Js.eqNum opc3 0xCD
     || (Z.land (Js.toInt32 opc3) 0xC7 =? 0xC4)
  then
    (* It was a CALL, get address. *)
    let callAddr := Js.parseInt16 (Js.substr data 2 4) in
    (* Exchange high and low byte *)
    let callAddr := Z.shiftr (Js.toInt32 callAddr) 8
                    + Z.shiftl (Z.land (Js.toInt32 callAddr) 0xFF) 8 in
    Some (3, callAddr)
  else
    (* Check if one of the 2 last bytes was a RST. *)
    let opc12 := Js.parseInt16 (Js.substr data 2 4) in
    match rstLoop fuel opc12 1 with
    | None => None
    | Some (opc12, k) =>
        if Js.neNum opc12 0 then
          (* It was a RST, get p *)
          Some (k, Z.land (Js.toInt32 opc12) 0x38)
        else
          (* Nothing found *)
          Some (0, 0)
    end.

(** [findCallOrRst(addr, handler)]: the 3 bytes before [addr] are read from
    ZEsarUX and the reply is handed to the handler above. *)
Definition findCallOrRst (fuel : nat) (upper : bool) (mem : Z -> Z) (addr : Z)
  : option (Z * Z) :=
  findCallOrRstReply fuel (readMemory upper mem (addr - 3) 3).

(** The classification in the words of the specification, over the three
    bytes [b0 b1 b2] that end at the return address: a CALL opcode in the
    first byte is looked for first, then a RST opcode in the last byte,
    then one in the byte before it. *)
Definition isCallOpcode (b : Z) : bool :=
  (b =? 0xCD) || (Z.land b 0xC7 =? 0xC4).

Definition isRstOpcode (b : Z) : bool :=
  Z.land b 0xC7 =? 0xC7.

Definition classify (b0 b1 b2 : Z) : Z * Z :=
  if isCallOpcode b0 then (3, Z.lor (Z.shiftl b2 8) b1)
  else if isRstOpcode b2 then (1, Z.land b2 0x38)
  else if isRstOpcode b1 then (2, Z.land b1 0x38)
  else (0, 0).

(** *** What is taken from outside of the class *)

Section Symbols.

(** [Labels.getLabelsForNumber]: the labels known for an address. *)
Variable getLabelsForNumber : Z -> list string.

(** [Utility.getHexString(value, size)] *)
Variable getHexString : Z -> Z -> string.

(** The label of a call address, or its hexadecimal value. *)
Definition labelOrHex (callAddr : Z) : string :=
  match getLabelsForNumber callAddr with
  | l :: _ => l
  | [] => getHexString callAddr 4 ++ "h"
  end.

(** What setupCallStackFrameArray does with one word [addr] of the stack,
    the [index]-th above [zStackAddress], once findCallOrRst has answered
    [(k, callAddr)]: it adds a frame to the list of frames, or it pushes
    the word on the stack of the last frame that was a CALL. *)
Inductive FrameAction : Type :=
| AddFrame (f : Frame)
| PushOnLastCallFrame (value : Z).

Definition callStackEntry (addr zStackAddress index : Z) (found : Z * Z)
  : FrameAction :=
  let '(k, callAddr) := found in
  if k =? 3 then
    (* CALL. *)
    AddFrame (newFrame (addr - 3) (zStackAddress + 2 * index)
                       ("CALL " ++ labelOrHex callAddr))
  else if (k =? 1) || (k =? 2) then
    (* RST. *)
    AddFrame (newFrame (addr - k) (zStackAddress + 2 * index)
                       ("RST " ++ getHexString callAddr 2 ++ "h"))
  else
    (* Neither CALL nor RST. *)
    PushOnLastCallFrame addr.

End Symbols.

(** The loop and what follows it, on the number read from the last two
    bytes, as one function. *)
Definition rstOf (fuel : nat) (opc12 : Js.number) : option (Z * Z) :=
  match rstLoop fuel opc12 1 with
  | None => None
  | Some (opc12, k) =>
      if Js.neNum opc12 0 then Some (k, Z.land (Js.toInt32 opc12) 0x38)
      else Some (0, 0)
  end.

(** Memories for the examples: the three bytes below 0x9000. *)
Definition memAt (b0 b1 b2 : Z) : Z -> Z :=
  fun a => if a =? 0x8FFD then b0
           else if a =? 0x8FFE then b1
           else if a =? 0x8FFF then b2
           else 0.

(** *** The virtual call stack of reverse debugging *)

(** How a method ends: it returns, or an exception leaves it (a failed
    [assert], or the TypeError of reading a property of [undefined]). *)
Inductive Outcome (A : Type) : Type :=
| Returned (a : A)
| Thrown.

Arguments Returned {A}.
Arguments Thrown {A}.

(** A string used as a condition: the empty string is false. *)
Definition truthy (s : string) : bool :=
  match s with
  | EmptyString => false
  | String _ _ => true
  end.

Section ReverseDebug.

(** [cpuTransactionLog.getInstruction(line)] and
    [cpuTransactionLog.getRegisters(line)] of ZesaruxTransactionLog,
    [Z80Registers.parsePC] and [Z80Registers.parseSP]: the transaction log
    and the register parser are not part of the sources. *)
Variable getInstruction : string -> string.
Variable getRegisters : string -> string.
Variable parsePC : string -> Z.
Variable parseSP : string -> Z.

(** [Labels.getLabelsForNumber] and [Utility.getHexString] *)
Variable getLabelsForNumber : Z -> list string.
Variable getHexString : Z -> Z -> string.

(** [handleReverseDebugStackFwrd(currentLine, nextLine)] on the virtual
    stack [reverseDbgStack] ([None] when it is [undefined]); the frame at
    index 0 is the top of the stack.  The result is the new value of
    [this.reverseDbgStack]. *)
Definition handleReverseDebugStackFwrd
  (currentLine : string) (nextLine : option string)
  (reverseDbgStack : option (list Frame))
  : Outcome (option (list Frame)) :=
  if negb (truthy currentLine) then Thrown
  else
    (* Check for end *)
    match nextLine with
    | None => Returned None
    | Some nextLine =>
        if negb (truthy nextLine) then Returned None
        else
          match reverseDbgStack with
          | None => Thrown
          | Some [] => Thrown
          | Some (_ :: stack1) =>
              (* The current frame is removed. *)
              let instr := getInstruction currentLine in
              let pushTop (st : list Frame) :=
                (* Add current PC *)
                let regs := getRegisters nextLine in
                let pc := parsePC regs in
                let sp := parseSP regs in
                Returned (Some (newFrame pc sp "PC" :: st)) in
              if Js.startsWith instr "RET" then
                (* Pop from call stack *)
                match stack1 with
                | [] => Thrown
                | _ :: stack2 => pushTop stack2
                end
              else if Js.startsWith instr "CALL" || Js.startsWith instr "RST"
              then
                (* Check if the SP got smaller, if not we might have skipped
                   a simulated RST only. *)
                let currentRegs := getRegisters currentLine in
                let currentSP := parseSP currentRegs in
                let nextRegs := getRegisters nextLine in
                let nextSP := parseSP nextRegs in
                if currentSP >? nextSP then
                  (* Push to call stack *)
                  let pc := parsePC currentRegs in
                  (* Now find label for this address *)
                  let callAddr := parsePC nextRegs in
                  let labelCallAddr :=
                    labelOrHex getLabelsForNumber getHexString callAddr in
                  let name :=
                    (if Js.startsWith instr "CALL" then "CALL " else "RST ")
                    ++ labelCallAddr in
                  pushTop (newFrame pc currentSP name :: stack1)
                else pushTop stack1
              else pushTop stack1
          end
    end.

End ReverseDebug.

(** [s.toUpperCase()] on the letters a to z *)
Definition toUpperCase (s : string) : string :=
  string_of_list_ascii
    (map (fun c => let n := nat_of_ascii c in
                   if (97 <=? n)%nat && (n <=? 122)%nat
                   then ascii_of_nat (n - 32) else c)
         (list_ascii_of_string s)).

(** Modelled from the spec: Utility.getHexString is not part of the
    sources; the specification speaks of a hexadecimal label.  The value is
    written in upper case hexadecimal digits, filled with zeros from the
    left up to [size] digits. *)
Definition hexString (value size : Z) : string :=
  let digits := toUpperCase (Js.toString value 16) in
  string_of_list_ascii
    (repeat "0"%char (Z.to_nat size - String.length digits))
  ++ digits.

(** A transaction log of two lines for the examples: a CALL at 0x9000 with
    SP=0xFF00, and the first instruction of the called routine at 0x8000
    with SP=0xFEFE. *)
Definition lineCall : string := "9000 CALL 8000".
Definition lineCallee : string := "8000 NOP".

Definition demoInstruction (line : string) : string :=
  if (line =? lineCall)%string then "CALL 8000" else "NOP".

Definition demoRegisters (line : string) : string := line.

Definition demoPC (regs : string) : Z :=
  if (regs =? lineCall)%string then 0x9000 else 0x8000.

Definition demoSP (regs : string) : Z :=
  if (regs =? lineCall)%string then 0xFF00 else 0xFEFE.

(** A symbol table that knows 0x8000 as L8000, and one without symbols. *)
Definition labelsL8000 (a : Z) : list string :=
  if a =? 0x8000 then ["L8000"] else [].

Definition noLabels (a : Z) : list string := [].

(** *** Breakpoints and watchpoints *)

(** A breakpoint as the debug adapter hands it over: [log] is [None] when
    there is no log message, [address] is -1 when the breakpoint is not
    verified. *)
Record EmulatorBreakpoint : Type := mkBreakpoint {
  bpId : Z;
  filePath : string;
  lineNr : Z;
  address : Z;
  condition : string;
  log : option string
}.

(** The debug adapter reports a breakpoint as verified when an address is
    set (setBreakPointsRequest: [verified = (cbp.address >= 0)]). *)
Definition verified (bp : EmulatorBreakpoint) : bool := address bp >=? 0.

Module GenericWatchpoint.
(** A watchpoint: address and size of the guarded range, the kind of
    access (r, w or rw) and the additional conditions, empty when there are
    none. *)
Record t : Type := mk {
  address : Z;
  size : Z;
  access : string;
  conditions : string
}.
End GenericWatchpoint.

(** The part of the object that the breakpoint and watchpoint methods
    touch.  Breakpoints are objects that the caller and the emulator
    share: [objects] is the store of these objects by reference,
    [breakpoints] the array of references of EmulatorClass.  [sent] lists
    the commands in the order in which the socket sends them, [warnings]
    the 'warning' events emitted. *)
Record Emulator : Type := mkEmulator {
  freeBreakpointIds : list Z;
  breakpoints : list nat;
  objects : nat -> EmulatorBreakpoint;
  sent : list string;
  warnings : list string
}.

Definition setObject (objects : nat -> EmulatorBreakpoint) (ref : nat)
  (bp : EmulatorBreakpoint) : nat -> EmulatorBreakpoint :=
  fun r => if (r =? ref)%nat then bp else objects r.

Definition send (cmd : string) (e : Emulator) : Emulator :=
  mkEmulator (freeBreakpointIds e) (breakpoints e) (objects e)
             (sent e ++ [cmd]) (warnings e).

Definition emitWarning (text : string) (e : Emulator) : Emulator :=
  mkEmulator (freeBreakpointIds e) (breakpoints e) (objects e)
             (sent e) (warnings e ++ [text]).

(** The numbers [from], [from+1], ... up to [to], as a for loop counts
    them. *)
Definition countUp (from to : Z) : list Z :=
  map (fun i => from + Z.of_nat i) (seq 0 (Z.to_nat (to - from + 1))).

(** [clearAllZesaruxBreakpoints()] *)
Definition clearAllZesaruxBreakpoints (e : Emulator) : Emulator :=
  fold_left (fun e i => send ("disable-breakpoint " ++ Js.toString i 10) e)
            (countUp 1 MAX_ZESARUX_BREAKPOINTS) e.

(** [initBreakpoints()] *)
Definition initBreakpoints (e : Emulator) : Emulator :=
  (* Clear memory breakpoints (watchpoints) *)
  let e := send "clear-membreakpoints" e in
  (* Clear all breakpoints *)
  let e := send "enable-breakpoints" e in
  let e := clearAllZesaruxBreakpoints e in
  (* Init breakpoint array *)
  mkEmulator (countUp 1 MAX_USED_BREAKPOINTS) (breakpoints e) (objects e)
             (sent e) (warnings e).

(** The double quote, as a string. *)
Definition quote : string := String (ascii_of_nat 34) EmptyString.

Section Breakpoints.

(** [Utility.getHexString] *)
Variable getHexString : Z -> Z -> string.

(** What convertCondition makes of a condition that is not empty: labels
    are replaced by their values and the operators by the ones of ZEsarUX.
    The text it produces goes into the command for ZEsarUX and is not
    looked at here. *)
Variable convertNonEmptyCondition : string -> string.

(** [convertCondition(condition)]: declared to return a string or
    [undefined], it returns a string on every path. *)
Definition convertCondition (condition : string) : option string :=
  if negb (truthy condition) || (String.length condition =? 0)%nat
  then Some EmptyString   (* No condition *)
  else Some (convertNonEmptyCondition condition).

(** [setBreakpoint(bp)], [bp] given by reference: the returned breakpoint
    id and the new state. *)
Definition setBreakpoint (ref : nat) (e : Emulator) : Z * Emulator :=
  let bp := objects e ref in
  let unverify (e : Emulator) :=
    (* set to unverified *)
    mkEmulator (freeBreakpointIds e) (breakpoints e)
      (setObject (objects e) ref
         (mkBreakpoint (bpId bp) (filePath bp) (lineNr bp) (-1)
                       (condition bp) (log bp)))
      (sent e) (warnings e) in
  (* Check for logpoint (not supported) *)
  match (match log bp with
         | Some l => if truthy l then Some l else None
         | None => None
         end) with
  | Some l =>
      let e := emitWarning
                 ("ZEsarUX does not support logpoints (" ++ quote ++ l
                  ++ quote ++ "). Instead a normal breakpoint is set.") e in
      (0, unverify e)
  | None =>
      (* Get condition *)
      match convertCondition (condition bp) with
      | None =>
          let e := emitWarning
                     ("Breakpoint: Can't set condition: " ++ condition bp) e in
          (0, unverify e)
      | Some zesaruxCondition =>
          (* get free id *)
          match freeBreakpointIds e with
          | [] => (0, e)   (* no free ID *)
          | id :: free =>
              let bp := mkBreakpoint id (filePath bp) (lineNr bp)
                          (address bp) (condition bp) (log bp) in
              (* Create condition from address and bp.condition *)
              let '(condition, zesaruxCondition) :=
                if address bp >=? 0 then
                  let condition := "PC=0" ++ getHexString (address bp) 4 ++ "h" in
                  if (0 <? String.length zesaruxCondition)%nat then
                    (condition ++ " and ", "(" ++ zesaruxCondition ++ ")")
                  else (condition, zesaruxCondition)
                else (EmptyString, zesaruxCondition) in
              let condition :=
                if (0 <? String.length zesaruxCondition)%nat
                then condition ++ zesaruxCondition else condition in
              (* set action first (no action) *)
              let shortCond :=
                if (String.length condition <? 50)%nat then condition
                else Js.substr condition 0 50 ++ "..." in
              let id10 := Js.toString id 10 in
              let e := mkEmulator free (breakpoints e)
                         (setObject (objects e) ref bp)
                         (sent e) (warnings e) in
              let e := send ("set-breakpointaction " ++ id10
                             ++ " prints breakpoint " ++ id10
                             ++ " hit (" ++ shortCond ++ ")") e in
              (* set the breakpoint *)
              let e := send ("set-breakpoint " ++ id10 ++ " " ++ condition) e in
              (* enable the breakpoint *)
              let e := send ("enable-breakpoint " ++ id10) e in
              (* Add to list *)
              (id, mkEmulator (freeBreakpointIds e) (breakpoints e ++ [ref])
                     (objects e) (sent e) (warnings e))
          end
      end
  end.

End Breakpoints.

(** [a.indexOf(x)] on an array of references: -1 when [x] is no element. *)
Fixpoint indexOfRef (a : list nat) (x : nat) : Z :=
  match a with
  | [] => -1
  | y :: r =>
      if (y =? x)%nat then 0
      else let i := indexOfRef r x in if i <? 0 then -1 else i + 1
  end.

(** [a.splice(index, 1)] for an index inside of the array *)
Fixpoint splice1 {A : Type} (a : list A) (index : nat) : list A :=
  match a, index with
  | [], _ => []
  | _ :: r, O => r
  | x :: r, S i => x :: splice1 r i
  end.

(** [removeBreakpoint(bp)]: Clears one breakpoint. *)
Definition removeBreakpoint (ref : nat) (e : Emulator) : Outcome Emulator :=
  let bp := objects e ref in
  (* disable breakpoint *)
  let e := send ("disable-breakpoint " ++ Js.toString (bpId bp) 10) e in
  (* Remove from list *)
  let index := indexOfRef (breakpoints e) ref in
  if index =? -1 then Thrown   (* Breakpoint should be removed but does not exist. *)
  else
    Returned
      (mkEmulator (freeBreakpointIds e ++ [index])
                  (splice1 (breakpoints e) (Z.to_nat index))
                  (objects e) (sent e) (warnings e)).

(** [setWatchpoints(watchPoints, handler)]: the new state and the copy of
    the array that the handler, if there is one, is called with. *)
Definition setWatchpoints (watchPoints : list GenericWatchpoint.t)
  (e : Emulator) : Emulator * list GenericWatchpoint.t :=
  let e :=
    fold_left
      (fun e wp =>
         (* Check if condition is used *)
         if (0 <? String.length (GenericWatchpoint.conditions wp))%nat then
           (* OPEN: ZEsarUX does not allow for memory breakpoints plus
              conditions.  At the moment no watchpoint will be set if an
              additional condition is set. *)
           e
         else
           (* This is the general case. Just add a breakpoint on memory
              access. *)
           let type := 0 in
           let type :=
             if Js.indexOf (GenericWatchpoint.access wp) "r" >=? 0
             then Z.lor type 0x01 else type in
           let type :=
             if Js.indexOf (GenericWatchpoint.access wp) "w" >=? 0
             then Z.lor type 0x02 else type in
           (* Create watchpoint with range *)
           let size := GenericWatchpoint.size wp in
           let addr := GenericWatchpoint.address wp in
           send ("set-membreakpoint " ++ Js.toString addr 16 ++ "h "
                 ++ Js.toString type 10 ++ " " ++ Js.toString size 10) e)
      watchPoints e in
  (e, watchPoints).

(** The command that arms the watchpoint [wp]. *)
Definition armCommand (wp : GenericWatchpoint.t) : string :=
  let type :=
    Z.lor (if Js.indexOf (GenericWatchpoint.access wp) "r" >=? 0
           then 0x01 else 0)
          (if Js.indexOf (GenericWatchpoint.access wp) "w" >=? 0
           then 0x02 else 0) in
  "set-membreakpoint " ++ Js.toString (GenericWatchpoint.address wp) 16
  ++ "h " ++ Js.toString type 10 ++ " "
  ++ Js.toString (GenericWatchpoint.size wp) 10.

Definition hasConditions (wp : GenericWatchpoint.t) : bool :=
  (0 <? String.length (GenericWatchpoint.conditions wp))%nat.

(** An emulator that has not been used yet.  Its breakpoint objects: the
    object [r] is a breakpoint at address 0x8000+r, except the object 100,
    which is a logpoint. *)
Definition emulator0 : Emulator :=
  mkEmulator [] []
    (fun r => mkBreakpoint 0 "main.asm" (Z.of_nat r) (0x8000 + Z.of_nat r)
                EmptyString
                (if (r =? 100)%nat then Some "hello" else None))
    [] [].

(** The emulator after initBreakpoints and after the breakpoints 0 to 98
    have been set: all 99 ids are in use. *)
Definition exhausted : Emulator :=
  fold_left (fun e r => snd (setBreakpoint hexString (fun c => c) r e))
            (seq 0 99) (initBreakpoints emulator0).

End ZesaruxEmulator.

(** * Part II: the properties *)

(** ** Facts about the JavaScript primitives *)
Module JsFacts.
Import Js.

Lemma len_nonneg {T : Type} (a : list T) : 0 <= len a.
Proof. unfold len. lia. Qed.

Section Arrays.
Context {A : Type}.

Lemma replace_length (a : list (option A)) n x :
  List.length (replace a n x) = List.length a.
Proof.
  revert n. induction a as [|y r IH]; intros [|m]; simpl; auto.
Qed.

Lemma nth_error_replace_same (a : list (option A)) n x :
  (n < List.length a)%nat -> nth_error (replace a n x) n = Some x.
Proof.
  revert n. induction a as [|y r IH]; intros [|m] H; simpl in *;
    try lia; auto.
  apply IH. lia.
Qed.

Lemma nth_error_replace_other (a : list (option A)) n m x :
  n <> m -> nth_error (replace a n x) m = nth_error a m.
Proof.
  revert n m. induction a as [|y r IH]; intros [|n] [|m] H; simpl;
    try congruence; auto.
Qed.

Lemma set_in_range_length (a : list (option A)) i x :
  0 <= i < len a -> len (set a i x) = len a.
Proof.
  intros [H0 H1]. unfold set.
  destruct (Z.ltb_spec i 0); [lia|].
  destruct (Z.ltb_spec i (len a)); [|lia].
  unfold len. now rewrite replace_length.
Qed.

Lemma get_set_same (a : list (option A)) i x :
  0 <= i < len a -> get (set a i x) i = x.
Proof.
  intros [H0 H1]. unfold set, get.
  destruct (Z.ltb_spec i 0); [lia|].
  destruct (Z.ltb_spec i (len a)); [|lia].
  rewrite nth_error_replace_same; auto. unfold len in *. lia.
Qed.

Lemma get_set_other (a : list (option A)) i j x :
  0 <= i < len a -> i <> j -> get (set a i x) j = get a j.
Proof.
  intros [H0 H1] Hij. unfold set, get.
  destruct (Z.ltb_spec i 0); [lia|].
  destruct (Z.ltb_spec i (len a)); [|lia].
  destruct (Z.ltb_spec j 0); auto.
  rewrite nth_error_replace_other; auto. lia.
Qed.

Lemma len_push (a : list (option A)) x : len (push a x) = len a + 1.
Proof. unfold len, push. rewrite length_app. simpl. lia. Qed.

End Arrays.

End JsFacts.

(** ** The instruction history *)
Module HistoryProofs.
Import ZxSimCpuHistory.

(** *** Facts about the history *)

Section HistoryFacts.
Context {Info RefList : Type}.
Implicit Types s : t Info RefList.

Lemma mod_succ_wrap (M n : Z) :
  0 < M ->
  (if (n - 1) mod M + 1 >=? M then 0 else (n - 1) mod M + 1) = n mod M.
Proof.
  intros HM.
  pose proof (Z.mod_pos_bound (n - 1) M HM) as Hr.
  pose proof (Z.div_mod (n - 1) M ltac:(lia)) as Hd.
  destruct (Z.geb_spec ((n - 1) mod M + 1) M) as [Hge|Hlt].
  - apply Z.mod_unique_pos with (q := (n - 1) / M + 1); lia.
  - apply Z.mod_unique_pos with (q := (n - 1) / M); lia.
Qed.

(** One push without exchange, seen from the number [n] of lines pushed
    so far. *)
Lemma push_step (M n : Z) (line : Info) s :
  0 < M -> 0 <= n ->
  maxSize s = M ->
  Js.len (history s) = Z.min n M ->
  historyWriteIndex s = (if n =? 0 then -1 else (n - 1) mod M) ->
  let s' := pushHistoryInfo line false s in
  maxSize s' = M /\
  Js.len (history s') = Z.min (n + 1) M /\
  historyWriteIndex s' = n mod M /\
  historyIndex s' = historyIndex s.
Proof.
  intros HM Hn Hmax Hlen Hwi. unfold pushHistoryInfo. simpl.
  rewrite Hmax, Hlen, Hwi.
  destruct (Z.geb_spec (Z.min n M) M) as [Hfull|Hroom]; simpl.
  - (* the buffer is full *)
    assert (Hn0 : (n =? 0) = false) by (apply Z.eqb_neq; lia).
    rewrite Hn0, (mod_succ_wrap M n HM).
    pose proof (Z.mod_pos_bound n M HM).
    repeat split; auto.
    rewrite JsFacts.set_in_range_length; lia.
  - (* the buffer still grows *)
    rewrite JsFacts.len_push, Hlen.
    repeat split; auto; try lia.
    destruct (Z.eqb_spec n 0) as [->|Hn0].
    + rewrite Z.mod_0_l; lia.
    + rewrite (Z.mod_small (n - 1)), (Z.mod_small n); lia.
Qed.

Lemma pushAll_from (M : Z) (lines : list Info) : forall (n : Z) s,
  0 < M -> 0 <= n ->
  maxSize s = M ->
  Js.len (history s) = Z.min n M ->
  historyWriteIndex s = (if n =? 0 then -1 else (n - 1) mod M) ->
  let n' := n + Js.len lines in
  let s' := pushAll lines s in
  maxSize s' = M /\
  Js.len (history s') = Z.min n' M /\
  historyWriteIndex s' = (if n' =? 0 then -1 else (n' - 1) mod M) /\
  historyIndex s' = historyIndex s.
Proof.
  induction lines as [|line rest IH]; intros n s HM Hn Hmax Hlen Hwi.
  - simpl. unfold Js.len. simpl. rewrite Z.add_0_r. auto.
  - destruct (push_step M n line s HM Hn Hmax Hlen Hwi)
      as (Hmax' & Hlen' & Hwi' & Hhi').
    assert (Hwi'' : historyWriteIndex (pushHistoryInfo line false s)
                    = (if n + 1 =? 0 then -1 else (n + 1 - 1) mod M)).
    { destruct (Z.eqb_spec (n + 1) 0); [lia|].
      now replace (n + 1 - 1) with n by lia. }
    destruct (IH (n + 1) _ HM ltac:(lia) Hmax' Hlen' Hwi'')
      as (H1 & H2 & H3 & H4).
    replace (n + Js.len (line :: rest)) with (n + 1 + Js.len rest)
      by (unfold Js.len; simpl List.length; lia).
    simpl. unfold pushAll in *. rewrite H4, Hhi'. auto.
Qed.

(** The state after pushing [lines] into a fresh history. *)
Lemma pushAll_fresh (M : Z) (lines : list Info) :
  0 < M ->
  let n := Js.len lines in
  let s : t Info RefList := pushAll lines (fresh M) in
  maxSize s = M /\
  Js.len (history s) = Z.min n M /\
  historyWriteIndex s = (if n =? 0 then -1 else (n - 1) mod M) /\
  historyIndex s = -1.
Proof.
  intros HM.
  apply (pushAll_from M lines 0 (fresh M)); try reflexivity; try lia.
  unfold Js.len. simpl. lia.
Qed.

(** [wf] is an invariant of the class. *)
Lemma wf_init s : wf (init s).
Proof. left. simpl. auto. Qed.

Lemma wf_clear s : wf s -> wf (clear s).
Proof.
  unfold wf, clear. simpl. intros [(H1 & H2 & H3)|(H1 & H2)]; [left|right];
    auto. split; auto. lia.
Qed.

Lemma wf_getPrevRegistersAsync s : wf s -> wf (snd (getPrevRegistersAsync s)).
Proof.
  unfold wf, getPrevRegistersAsync.
  intros [(H1 & H2 & H3)|(H1 & H2)].
  - rewrite H3. simpl. left. auto.
  - destruct (Z.ltb_spec (historyIndex s) 0); simpl.
    + right. split; auto. lia.
    + destruct (Z.ltb_spec (historyIndex s - 1) 0);
        match goal with |- context [?a =? ?b] => destruct (Z.eqb_spec a b) end;
        simpl; right; split; auto; lia.
Qed.

Lemma wf_getNextRegisters s : wf s -> wf (snd (getNextRegisters s)).
Proof.
  unfold wf, getNextRegisters.
  intros [(H1 & H2 & H3)|(H1 & H2)].
  - rewrite H3, H2. simpl. left. auto.
  - destruct (Z.eqb_spec (historyIndex s) (historyWriteIndex s)); simpl.
    + right. split; auto. lia.
    + destruct (Z.geb_spec (historyIndex s + 1) (Js.len (history s)));
        simpl; right; split; auto; lia.
Qed.

Lemma wf_pushHistoryInfo (line : Info) (exchange : bool) s :
  0 < maxSize s -> Js.len (history s) <= maxSize s ->
  wf s -> wf (pushHistoryInfo line exchange s).
Proof.
  intros HM Hle Hwf. unfold pushHistoryInfo.
  pose proof (JsFacts.len_nonneg (history s)) as Hlen0.
  destruct (exchange && (Js.len (history s) >? 0)) eqn:Hex.
  - apply andb_true_iff in Hex. destruct Hex as [_ Hpos].
    apply Z.gtb_lt in Hpos.
    destruct Hwf as [(H1 & _)|(H1 & H2)].
    + rewrite H1 in Hpos. unfold Js.len in Hpos. simpl in Hpos. lia.
    + right. simpl. rewrite JsFacts.set_in_range_length; auto.
  - destruct (Z.geb_spec (Js.len (history s)) (maxSize s)) as [Hfull|Hroom].
    + destruct Hwf as [(H1 & _)|(H1 & H2)].
      * rewrite H1 in Hfull. unfold Js.len in Hfull. simpl in Hfull. lia.
      * right. simpl.
        destruct (Z.geb_spec (historyWriteIndex s + 1) (maxSize s));
          rewrite JsFacts.set_in_range_length; lia.
    + right. simpl. rewrite JsFacts.len_push.
      destruct Hwf as [(H1 & H2 & H3)|(H1 & H2)].
      * rewrite H1, H2, H3. unfold Js.len. simpl. lia.
      * lia.
Qed.

(** The invariant holds after init and is kept by every method. *)
Lemma invariant_fresh (m : Z) : 0 < m -> invariant (fresh m : t Info RefList).
Proof.
  intros Hm. split; [apply wf_init|]. simpl. unfold Js.len. simpl. lia.
Qed.

Lemma invariant_pushHistoryInfo (line : Info) (exchange : bool) s :
  invariant s -> invariant (pushHistoryInfo line exchange s).
Proof.
  intros (Hwf & HM & Hle). split; [now apply wf_pushHistoryInfo|].
  pose proof (JsFacts.len_nonneg (history s)) as Hlen0.
  unfold pushHistoryInfo.
  destruct (exchange && (Js.len (history s) >? 0)) eqn:Hex.
  - apply andb_true_iff in Hex. destruct Hex as [_ Hpos].
    apply Z.gtb_lt in Hpos. simpl. split; auto.
    destruct Hwf as [(H1 & _)|(H1 & H2)].
    + rewrite H1 in Hpos. unfold Js.len in Hpos. simpl in Hpos. lia.
    + rewrite JsFacts.set_in_range_length; auto.
  - destruct (Z.geb_spec (Js.len (history s)) (maxSize s)) as [Hfull|Hroom];
      simpl; split; auto.
    + destruct Hwf as [(H1 & _)|(H1 & H2)].
      * rewrite H1 in Hfull. unfold Js.len in Hfull. simpl in Hfull. lia.
      * destruct (Z.geb_spec (historyWriteIndex s + 1) (maxSize s));
          rewrite JsFacts.set_in_range_length; lia.
    + rewrite JsFacts.len_push. lia.
Qed.

Lemma invariant_getPrevRegistersAsync s :
  invariant s -> invariant (snd (getPrevRegistersAsync s)).
Proof.
  intros (Hwf & HM & Hle). split; [now apply wf_getPrevRegistersAsync|].
  unfold getPrevRegistersAsync.
  repeat match goal with
         | |- context [if ?c then _ else _] => destruct c
         end; simpl; auto.
Qed.

Lemma invariant_getNextRegisters s :
  invariant s -> invariant (snd (getNextRegisters s)).
Proof.
  intros (Hwf & HM & Hle). split; [now apply wf_getNextRegisters|].
  unfold getNextRegisters.
  repeat match goal with
         | |- context [if ?c then _ else _] => destruct c
         end; simpl; auto.
Qed.

Lemma invariant_clear s : invariant s -> invariant (clear s).
Proof.
  intros (Hwf & HM & Hle). split; [now apply wf_clear|]. simpl. auto.
Qed.

(** *** The claims about the history *)

(** C2 (pushHistoryInfo as a ring buffer).  Starting from a freshly
    initialised history of capacity [m], pushing [n] lines without exchange:
    when [n < m] the buffer holds [n] lines and the write cursor is [n-1];
    when [n = m + k] the buffer holds exactly [m] lines and the write cursor
    is [(k-1) mod m].  Pushing with [exchange=true] into a non-empty buffer
    replaces the entry at the write cursor and changes neither the length,
    nor a cursor, nor another entry. *)
Theorem C2_pushHistoryInfo_ring_buffer (m : Z) (lines : list Info) :
  let n := Js.len lines in
  let s : t Info RefList := pushAll lines (fresh m) in
  (n < m ->
     Js.len (history s) = n /\ historyWriteIndex s = n - 1) /\
  (forall k, 0 < m -> 0 <= k -> n = m + k ->
     Js.len (history s) = m /\ historyWriteIndex s = (k - 1) mod m) /\
  (forall (s0 : t Info RefList) (line : Info),
     wf s0 -> history s0 <> [] ->
     let s1 := pushHistoryInfo line true s0 in
     Js.len (history s1) = Js.len (history s0) /\
     historyWriteIndex s1 = historyWriteIndex s0 /\
     historyIndex s1 = historyIndex s0 /\
     Js.get (history s1) (historyWriteIndex s0) = Some line /\
     forall j, j <> historyWriteIndex s0 ->
       Js.get (history s1) j = Js.get (history s0) j).
Proof.
  intros n s. pose proof (JsFacts.len_nonneg lines) as Hn. fold n in Hn.
  split; [|split].
  - intros Hlt.
    destruct (pushAll_fresh m lines ltac:(lia)) as (_ & Hlen & Hwi & _).
    fold n s in Hlen, Hwi. split; [lia|]. rewrite Hwi.
    destruct (Z.eqb_spec n 0); [lia|]. apply Z.mod_small. lia.
  - intros k Hm Hk Hnk.
    destruct (pushAll_fresh m lines Hm) as (_ & Hlen & Hwi & _).
    fold n s in Hlen, Hwi. split; [lia|]. rewrite Hwi.
    destruct (Z.eqb_spec n 0); [lia|].
    replace (n - 1) with (k - 1 + 1 * m) by lia.
    apply Z.mod_add. lia.
  - intros s0 line Hwf Hne s1.
    destruct Hwf as [(He & _)|(Hwi & _)]; [contradiction|].
    assert (Hs1 : s1 = mk (Js.set (history s0) (historyWriteIndex s0)
                                  (Some line))
                          (historyIndex s0) (historyWriteIndex s0)
                          (maxSize s0) (revDbgHistory s0)
                          (reverseDbgStack s0)).
    { unfold s1, pushHistoryInfo.
      replace (Js.len (history s0) >? 0) with true
        by (symmetry; apply Z.gtb_lt; lia).
      reflexivity. }
    rewrite Hs1. simpl. repeat split.
    + apply JsFacts.set_in_range_length; auto.
    + apply JsFacts.get_set_same; auto.
    + intros j Hj. apply JsFacts.get_set_other; auto.
Qed.

(** C3 (getPrevRegistersAsync, the step back).  On a non-empty buffer:
    from the live state the read cursor moves to the write cursor and that
    entry is returned; otherwise the read cursor is decremented modulo the
    length of the buffer and the entry there is returned, unless the
    decremented position is the write cursor again: then nothing is
    returned and the read cursor stays where it is. *)
Theorem C3_getPrevRegistersAsync_step_back (s : t Info RefList) :
  wf s -> history s <> [] ->
  (historyIndex s < 0 ->
     getPrevRegistersAsync s
     = (Js.get (history s) (historyWriteIndex s),
        setHistoryIndex s (historyWriteIndex s))) /\
  (0 <= historyIndex s ->
     let i := (historyIndex s - 1) mod Js.len (history s) in
     (i = historyWriteIndex s -> getPrevRegistersAsync s = (None, s)) /\
     (i <> historyWriteIndex s ->
        getPrevRegistersAsync s
        = (Js.get (history s) i, setHistoryIndex s i))).
Proof.
  intros [(He & _)|(Hwi & Hhi)] Hne; [contradiction|].
  split.
  - intros Hlive. unfold getPrevRegistersAsync, setHistoryIndex.
    destruct (Z.ltb_spec (historyIndex s) 0); [reflexivity|lia].
  - intros Hrew i. unfold getPrevRegistersAsync, setHistoryIndex.
    destruct (Z.ltb_spec (historyIndex s) 0); [lia|].
    assert (Hi : (if historyIndex s - 1 <? 0
                  then Js.len (history s) - 1 else historyIndex s - 1) = i).
    { unfold i. destruct (Z.ltb_spec (historyIndex s - 1) 0).
      - replace (historyIndex s - 1) with (-1) by lia.
        apply Z.mod_unique_pos with (q := -1); lia.
      - symmetry. apply Z.mod_small. lia. }
    rewrite Hi. split; intros Hcmp.
    + rewrite (proj2 (Z.eqb_eq _ _) Hcmp). reflexivity.
    + rewrite (proj2 (Z.eqb_neq _ _) Hcmp). reflexivity.
Qed.

(** C4 (step back, then step forward, from the live state).  On a
    non-empty buffer the step back returns the entry at the write cursor and
    moves the read cursor there; the step forward that follows returns
    nothing and leaves the object exactly as it was before the two calls:
    live, with the same buffer and the same write cursor. *)
Theorem C4_step_back_then_forward_from_live (s : t Info RefList) :
  history s <> [] -> live s ->
  let back := getPrevRegistersAsync s in
  let forth := getNextRegisters (snd back) in
  fst back = Js.get (history s) (historyWriteIndex s) /\
  historyIndex (snd back) = historyWriteIndex s /\
  fst forth = None /\
  snd forth = s /\
  live (snd forth).
Proof.
  intros _ Hlive. unfold live in *. destruct s as [h hi wi m r st].
  simpl in Hlive. subst hi.
  unfold getPrevRegistersAsync, getNextRegisters. simpl.
  rewrite Z.eqb_refl. simpl. auto.
Qed.

(** C7, as amended (clear()).  From any state, also during reverse
    debugging, clear() makes the read cursor live, empties the list of
    decorated addresses and discards the virtual call stack.  The history
    buffer, the write cursor and the capacity are left as they were, and a
    step back that follows returns the entry at the write cursor. *)
Theorem C7_clear_resets_read_cursor_only (s : t Info RefList) :
  let s' := clear s in
  historyIndex s' = -1 /\
  revDbgHistory s' = [] /\
  reverseDbgStack s' = None /\
  history s' = history s /\
  historyWriteIndex s' = historyWriteIndex s /\
  maxSize s' = maxSize s /\
  getPrevRegistersAsync s'
  = (Js.get (history s) (historyWriteIndex s),
     setHistoryIndex s' (historyWriteIndex s)).
Proof.
  simpl. repeat split.
Qed.

End HistoryFacts.

Lemma C2_witness_three_in_two :
  Js.len (history three_in_two) = 2 /\
  historyWriteIndex three_in_two = (1 - 1) mod 2.
Proof.
  exact (proj1 (proj2 (@C2_pushHistoryInfo_ring_buffer Z unit 2 [10; 20; 30]))
               1 eq_refl (fun H => match H with eq_refl => I end) eq_refl).
Defined.

(** The scenario of the specification: of three lines pushed into a
    history of capacity 2 the first is evicted; stepping back from the live
    state yields the third line, then the second, then nothing. *)
Example three_in_two_steps_back :
  let b1 := getPrevRegistersAsync three_in_two in
  let b2 := getPrevRegistersAsync (snd b1) in
  let b3 := getPrevRegistersAsync (snd b2) in
  history three_in_two = [Some 30; Some 20] /\
  historyWriteIndex three_in_two = 0 /\
  fst b1 = Some 30 /\ fst b2 = Some 20 /\ fst b3 = None /\ snd b3 = snd b2.
Proof. vm_compute. repeat split. Qed.

Lemma C3_witness_rewound :
  getPrevRegistersAsync rewound = (None, rewound).
Proof.
  refine (proj1 (proj2 (@C3_getPrevRegistersAsync_step_back Z unit rewound
                          _ _) _) eq_refl).
  - right. vm_compute. repeat split; discriminate.
  - discriminate.
  - discriminate.
Defined.

Lemma C4_witness_three_in_two :
  snd (getNextRegisters (snd (getPrevRegistersAsync three_in_two)))
  = three_in_two.
Proof.
  refine (proj1 (proj2 (proj2 (proj2
            (@C4_step_back_then_forward_from_live Z unit three_in_two _ _))))).
  - discriminate.
  - reflexivity.
Defined.

(** C7 as stated fails: after clear() in the middle of reverse debugging
    the buffer still has its two lines, the write cursor is still on the
    youngest one, and a step back finds it. *)
Lemma C7_counterexample_clear_keeps_history :
  let s := clear rewound in
  Js.len (history s) = 2 /\
  historyWriteIndex s = 1 /\
  fst (getPrevRegistersAsync s) = Some 22 /\
  ~ (Js.len (history s) = 0 /\ historyWriteIndex s = -1
     /\ fst (getPrevRegistersAsync s) = None).
Proof.
  vm_compute. repeat split. intros (H & _). discriminate H.
Qed.

(** *** More about the history *)

Section HistoryExtras.
Context {Info RefList : Type}.
Implicit Types s : t Info RefList.

(** X1.  Whatever is called on a history of positive capacity, in whatever
    order (pushes with or without exchange, steps back and forth, clear),
    the buffer never holds more than [maxSize] lines, the capacity does not
    change, the write cursor points into the buffer unless the buffer is
    empty, and the read cursor is -1 or points into the buffer. *)
Theorem X1_history_invariant_any_calls (m : Z) (cs : list (Call Info)) :
  0 < m ->
  let s : t Info RefList := calls cs (fresh m) in
  maxSize s = m /\
  0 <= Js.len (history s) <= m /\
  (history s = [] -> historyWriteIndex s = -1 /\ historyIndex s = -1) /\
  (history s <> [] -> 0 <= historyWriteIndex s < Js.len (history s)) /\
  -1 <= historyIndex s < Z.max 0 (Js.len (history s)).
Proof.
  intros Hm s.
  assert (H : invariant s /\ maxSize s = m).
  { unfold s, calls.
    assert (H0 : invariant (fresh m : t Info RefList) /\
                 maxSize (fresh m : t Info RefList) = m)
      by (split; [now apply invariant_fresh|reflexivity]).
    revert H0. generalize (fresh m : t Info RefList).
    induction cs as [|c r IH]; intros s0 [Hinv Hmax]; [now split|].
    simpl. apply IH. destruct c; simpl.
    - split; [now apply invariant_pushHistoryInfo|].
      unfold pushHistoryInfo.
      repeat match goal with
             | |- context [if ?c then _ else _] => destruct c
             end; assumption.
    - split; [now apply invariant_getPrevRegistersAsync|].
      unfold getPrevRegistersAsync.
      repeat match goal with
             | |- context [if ?c then _ else _] => destruct c
             end; assumption.
    - split; [now apply invariant_getNextRegisters|].
      unfold getNextRegisters.
      repeat match goal with
             | |- context [if ?c then _ else _] => destruct c
             end; assumption.
    - split; [now apply invariant_clear|assumption]. }
  destruct H as ((Hwf & _ & Hle) & Hmax).
  pose proof (JsFacts.len_nonneg (history s)) as Hlen.
  rewrite Hmax in Hle. split; [assumption|]. split; [lia|].
  assert (Hnil : history s = [] -> Js.len (history s) = 0)
    by (intros ->; reflexivity).
  destruct Hwf as [(H1 & H2 & H3)|(H1 & H2)].
  - specialize (Hnil H1).
    split; [intros _; now split|]. split; [intros Hne; contradiction|]. lia.
  - split; [intros He; specialize (Hnil He); lia|].
    split; [intros _; assumption|]. lia.
Qed.

(** **** What the buffer holds after pushes *)

Lemma get_push_old (a : list (option Info)) x j :
  0 <= j < Js.len a -> Js.get (Js.push a x) j = Js.get a j.
Proof.
  intros [H0 H1]. unfold Js.get, Js.push, Js.len in *.
  destruct (Z.ltb_spec j 0); [lia|].
  rewrite nth_error_app1 by lia. reflexivity.
Qed.

Lemma get_push_new (a : list (option Info)) x :
  Js.get (Js.push a x) (Js.len a) = x.
Proof.
  unfold Js.get, Js.push, Js.len.
  destruct (Z.ltb_spec (Z.of_nat (List.length a)) 0); [lia|].
  rewrite Nat2Z.id, nth_error_app2, Nat.sub_diag by lia. reflexivity.
Qed.

Lemma mod_shift_neq (a k m : Z) :
  0 < k < m -> (a - k) mod m <> a mod m.
Proof.
  intros Hk Heq.
  assert (H : (a - (a - k)) mod m = 0).
  { rewrite Zminus_mod, Heq, Z.sub_diag. apply Z.mod_0_l. lia. }
  replace (a - (a - k)) with k in H by lia.
  rewrite Z.mod_small in H; lia.
Qed.

(** After [n] lines have been pushed into a fresh history of capacity
    [m], the line pushed [k] pushes before the last one, for [k] below
    [min n m], is at index [(n-1-k) mod m]. *)
Lemma pushAll_contents (m : Z) (lines : list Info) :
  0 < m ->
  let n := Js.len lines in
  let s : t Info RefList := pushAll lines (fresh m) in
  forall k, 0 <= k < Z.min n m ->
    Js.get (history s) ((n - 1 - k) mod m)
    = nth_error lines (Z.to_nat (n - 1 - k)).
Proof.
  intros Hm. induction lines as [|x l IH] using rev_ind.
  - intros n s k Hk. unfold n, Js.len in Hk. simpl in Hk. lia.
  - intros n s k Hk.
    set (n0 := Js.len l). set (s0 := pushAll l (fresh m) : t Info RefList).
    assert (Hn : n = n0 + 1)
      by (unfold n, n0, Js.len; rewrite length_app; simpl; lia).
    assert (Hs : s = pushHistoryInfo x false s0)
      by (unfold s, s0, pushAll; now rewrite fold_left_app).
    destruct (pushAll_fresh (RefList := RefList) m l Hm)
      as (Hmax & Hlen & Hwi & _).
    fold n0 s0 in Hmax, Hlen, Hwi.
    pose proof (JsFacts.len_nonneg l) as Hn0. fold n0 in Hn0.
    specialize (IH (k - 1)). fold n0 s0 in IH. cbv zeta in IH.
    rewrite Hs, Hn. unfold pushHistoryInfo. cbn [andb].
    rewrite Hmax, Hlen.
    destruct (Z.geb_spec (Z.min n0 m) m) as [Hfull|Hroom]; cbn [history].
    + (* the buffer was full: the oldest line is overwritten *)
      assert (Hidx : (if historyWriteIndex s0 + 1 >=? m then 0
                      else historyWriteIndex s0 + 1) = n0 mod m).
      { rewrite Hwi. destruct (Z.eqb_spec n0 0); [lia|].
        apply mod_succ_wrap; assumption. }
      rewrite Hidx.
      pose proof (Z.mod_pos_bound n0 m Hm) as Hb.
      destruct (Z.eq_dec k 0) as [->|Hk0].
      * replace (n0 + 1 - 1 - 0) with n0 by lia.
        rewrite JsFacts.get_set_same by lia.
        unfold n0, Js.len. rewrite Nat2Z.id, nth_error_app2 by lia.
        now rewrite Nat.sub_diag.
      * rewrite JsFacts.get_set_other; [| lia |].
        -- replace (n0 + 1 - 1 - k) with (n0 - 1 - (k - 1)) by lia.
           rewrite IH by lia.
           rewrite nth_error_app1; [reflexivity|].
           unfold n0, Js.len in *. lia.
        -- replace (n0 + 1 - 1 - k) with (n0 - k) by lia.
           intros Heq. apply (mod_shift_neq n0 k m); [lia|]. congruence.
    + (* the buffer grows *)
      assert (Hlen0 : Js.len (history s0) = n0) by lia.
      destruct (Z.eq_dec k 0) as [->|Hk0].
      * replace (n0 + 1 - 1 - 0) with n0 by lia.
        rewrite Z.mod_small by lia. rewrite <- Hlen0 at 1.
        rewrite get_push_new.
        unfold n0, Js.len. rewrite Nat2Z.id, nth_error_app2 by lia.
        now rewrite Nat.sub_diag.
      * replace (n0 + 1 - 1 - k) with (n0 - 1 - (k - 1)) by lia.
        rewrite nth_error_app1 by (unfold n0, Js.len in *; lia).
        rewrite <- IH by lia.
        apply get_push_old. rewrite Hlen0.
        pose proof (Z.mod_pos_bound (n0 - 1 - (k - 1)) m Hm).
        rewrite Z.mod_small by lia. lia.
Qed.

(** **** Stepping back through the buffer *)

Lemma mod_back_neq (w d L : Z) :
  0 <= w < L -> 0 < d < L -> (w - d) mod L <> w.
Proof.
  intros Hw Hd Heq. apply (mod_shift_neq w d L Hd).
  rewrite Heq. symmetry. apply Z.mod_small. assumption.
Qed.

(** One step back from the position [j] steps behind the write cursor. *)
Lemma getPrev_at s (j : Z) :
  let L := Js.len (history s) in
  let w := historyWriteIndex s in
  0 <= w < L -> 0 <= j -> j + 1 < L ->
  getPrevRegistersAsync (setHistoryIndex s ((w - j) mod L))
  = (Js.get (history s) ((w - (j + 1)) mod L),
     setHistoryIndex s ((w - (j + 1)) mod L)).
Proof.
  intros L w Hw Hj HjL.
  assert (HL : 0 < L) by lia.
  pose proof (Z.mod_pos_bound (w - j) L HL) as Hb.
  unfold getPrevRegistersAsync, setHistoryIndex. cbn [historyIndex history
    historyWriteIndex maxSize revDbgHistory reverseDbgStack].
  change (Js.len (history s)) with L. change (historyWriteIndex s) with w.
  destruct (Z.ltb_spec ((w - j) mod L) 0); [lia|].
  assert (Hq : (if (w - j) mod L - 1 <? 0 then L - 1 else (w - j) mod L - 1)
               = (w - (j + 1)) mod L).
  { replace (w - (j + 1)) with (w - j - 1) by lia.
    rewrite <- (Zminus_mod_idemp_l (w - j) 1 L).
    destruct (Z.ltb_spec ((w - j) mod L - 1) 0).
    - replace ((w - j) mod L) with 0 by lia.
      apply Z.mod_unique_pos with (q := -1); lia.
    - symmetry. apply Z.mod_small. lia. }
  rewrite Hq.
  rewrite (proj2 (Z.eqb_neq _ _)) by (apply mod_back_neq; lia).
  reflexivity.
Qed.

(** The step back from the oldest line returns nothing and moves
    nothing. *)
Lemma getPrev_at_oldest s :
  let L := Js.len (history s) in
  let w := historyWriteIndex s in
  0 <= w < L ->
  getPrevRegistersAsync (setHistoryIndex s ((w - (L - 1)) mod L))
  = (None, setHistoryIndex s ((w - (L - 1)) mod L)).
Proof.
  intros L w Hw.
  assert (HL : 0 < L) by lia.
  pose proof (Z.mod_pos_bound (w - (L - 1)) L HL) as Hb.
  unfold getPrevRegistersAsync, setHistoryIndex. cbn [historyIndex history
    historyWriteIndex maxSize revDbgHistory reverseDbgStack].
  change (Js.len (history s)) with L. change (historyWriteIndex s) with w.
  destruct (Z.ltb_spec ((w - (L - 1)) mod L) 0); [lia|].
  assert (Hq : (if (w - (L - 1)) mod L - 1 <? 0 then L - 1
                else (w - (L - 1)) mod L - 1) = w).
  { assert (Hw' : (w - (L - 1) - 1) mod L = w).
    { replace (w - (L - 1) - 1) with (w + (-1) * L) by lia.
      rewrite Z.mod_add by lia. apply Z.mod_small. lia. }
    rewrite <- (Zminus_mod_idemp_l (w - (L - 1)) 1 L) in Hw'.
    destruct (Z.ltb_spec ((w - (L - 1)) mod L - 1) 0).
    - replace ((w - (L - 1)) mod L) with 0 in Hw' by lia.
      rewrite <- Hw'. apply Z.mod_unique_pos with (q := -1); lia.
    - rewrite <- Hw' at 2. symmetry. apply Z.mod_small. lia. }
  rewrite Hq, Z.eqb_refl. reflexivity.
Qed.

Lemma stepBacks_at (k : nat) : forall s (j : Z),
  let L := Js.len (history s) in
  let w := historyWriteIndex s in
  0 <= w < L -> 0 <= j -> j + Z.of_nat k < L ->
  stepBacks k (setHistoryIndex s ((w - j) mod L))
  = (map (fun i => Js.get (history s) ((w - (j + 1 + Z.of_nat i)) mod L))
         (seq 0 k),
     setHistoryIndex s ((w - (j + Z.of_nat k)) mod L)).
Proof.
  induction k as [|k IH]; intros s j L w Hw Hj Hk; subst L w.
  - simpl. now rewrite Z.add_0_r.
  - cbn [stepBacks].
    pose proof (getPrev_at s j) as H1. cbv zeta in H1.
    rewrite H1 by lia.
    pose proof (IH s (j + 1)) as H2. cbv zeta in H2.
    rewrite H2 by lia.
    cbn [seq map]. rewrite <- seq_shift, map_map. f_equal.
    + f_equal; [do 3 f_equal; lia|].
      apply map_ext. intros i. do 3 f_equal. lia.
    + do 3 f_equal. lia.
Qed.

(** From the live state: the first step back goes to the write cursor,
    the following ones go back from there. *)
Lemma stepBacks_live (k : nat) s :
  let L := Js.len (history s) in
  let w := historyWriteIndex s in
  0 <= w < L -> historyIndex s = -1 -> Z.of_nat k <= L -> (0 < k)%nat ->
  stepBacks k s
  = (map (fun i => Js.get (history s) ((w - Z.of_nat i) mod L)) (seq 0 k),
     setHistoryIndex s ((w - (Z.of_nat k - 1)) mod L)).
Proof.
  intros L w Hw Hlive Hk Hpos. subst L w. destruct k as [|k]; [lia|].
  cbn [stepBacks].
  assert (H1 : getPrevRegistersAsync s
               = (Js.get (history s) (historyWriteIndex s),
                  setHistoryIndex s
                    ((historyWriteIndex s - 0) mod Js.len (history s)))).
  { unfold getPrevRegistersAsync. rewrite Hlive. cbn [Z.ltb Z.compare].
    rewrite Z.sub_0_r, Z.mod_small by lia. reflexivity. }
  rewrite H1.
  pose proof (stepBacks_at k s 0) as H2. cbv zeta in H2.
  rewrite H2 by lia.
  cbn [seq map]. rewrite <- seq_shift, map_map. f_equal.
  - f_equal; [now rewrite Z.sub_0_r, Z.mod_small by lia|].
    apply map_ext. intros i. do 3 f_equal. lia.
  - do 3 f_equal. lia.
Qed.

Lemma map_nth_error_seq {A : Type} (l : list A) : forall k,
  (k <= List.length l)%nat ->
  map (fun i => nth_error l i) (seq 0 k) = map Some (firstn k l).
Proof.
  induction l as [|x l IH]; intros [|k] Hk; simpl in *; try lia; auto.
  rewrite <- seq_shift, map_map. f_equal. apply IH. lia.
Qed.

(** X2.  A history of capacity [m] into which the lines [lines] have been
    pushed keeps the last [min n m] of them: that many steps back from the
    live state return these lines, the newest first, and one more step back
    returns nothing and leaves the read cursor on the oldest line. *)
Theorem X2_step_back_returns_kept_lines_newest_first
  (m : Z) (lines : list Info) :
  0 < m ->
  let n := Js.len lines in
  let s : t Info RefList := pushAll lines (fresh m) in
  let kept := Z.to_nat (Z.min n m) in
  let r := stepBacks kept s in
  fst r = map Some (firstn kept (rev lines)) /\
  getPrevRegistersAsync (snd r) = (None, snd r).
Proof.
  intros Hm n s kept r.
  destruct (pushAll_fresh (RefList := RefList) m lines Hm)
    as (Hmax & Hlen & Hwi & Hhi).
  fold n s in Hmax, Hlen, Hwi, Hhi.
  pose proof (JsFacts.len_nonneg lines) as Hn. fold n in Hn.
  destruct (Z.eq_dec n 0) as [Hn0|Hn0].
  - (* nothing was pushed *)
    assert (Hl : lines = []).
    { unfold n, Js.len in Hn0. destruct lines; [reflexivity|simpl in Hn0; lia]. }
    assert (Hk0 : kept = 0%nat) by (unfold kept; lia).
    unfold r. rewrite Hk0. unfold s. subst lines. split; reflexivity.
  - set (L := Js.len (history s)) in *. set (w := historyWriteIndex s) in *.
    destruct (Z.eqb_spec n 0) as [|_]; [lia|].
    assert (Hw : 0 <= w < L).
    { pose proof (Z.mod_pos_bound (n - 1) m Hm).
      destruct (Z.le_gt_cases n m).
      - rewrite Hwi, Z.mod_small by lia. lia.
      - lia. }
    assert (Hkept : Z.of_nat kept = L) by (unfold kept; lia).
    assert (Hidx : forall i, 0 <= i < L ->
                     (w - i) mod L = (n - 1 - i) mod m).
    { intros i Hi. destruct (Z.le_gt_cases n m).
      - rewrite Hwi, (Z.mod_small (n - 1)) by lia.
        rewrite !Z.mod_small by lia. reflexivity.
      - replace L with m by lia. rewrite Hwi.
        rewrite Zminus_mod_idemp_l. reflexivity. }
    pose proof (stepBacks_live kept s) as Hsteps. cbv zeta in Hsteps.
    fold L w in Hsteps.
    unfold r. rewrite Hsteps by (assumption || lia).
    cbn [fst snd]. split.
    + rewrite <- map_nth_error_seq
        by (rewrite length_rev; unfold n, Js.len in *; lia).
      apply map_ext_in. intros i Hi. apply in_seq in Hi.
      rewrite Hidx by lia.
      pose proof (pushAll_contents m lines Hm (Z.of_nat i)) as Hc.
      cbv zeta in Hc. fold n s in Hc. rewrite Hc by lia.
      rewrite nth_error_rev.
      replace (i <? List.length lines)%nat with true
        by (symmetry; apply Nat.ltb_lt; unfold n, Js.len in *; lia).
      f_equal. unfold n, Js.len in *. lia.
    + rewrite Hkept. apply getPrev_at_oldest. assumption.
Qed.

(** **** Stepping back and forth *)

(** X3.  During reverse debugging a step forward undoes a step back and a
    step back undoes a step forward: when the step back from the read
    cursor [i] does not run into the write cursor, the step forward that
    follows returns the line at [i] and restores the object as it was; and
    when [i] is not the write cursor, a step forward followed by a step
    back does the same. *)
Theorem X3_step_forward_and_back_cancel s :
  wf s -> history s <> [] -> 0 <= historyIndex s ->
  ((historyIndex s - 1) mod Js.len (history s) <> historyWriteIndex s ->
     getNextRegisters (snd (getPrevRegistersAsync s))
     = (Js.get (history s) (historyIndex s), s)) /\
  (historyIndex s <> historyWriteIndex s ->
     getPrevRegistersAsync (snd (getNextRegisters s))
     = (Js.get (history s) (historyIndex s), s)).
Proof.
  intros [(He & _)|(Hw & Hi)] Hne Hrew; [contradiction|].
  destruct s as [h hi w m r st]. cbn [history historyIndex historyWriteIndex] in *.
  set (L := Js.len h) in *.
  assert (Hdec : (hi - 1) mod L = if hi - 1 <? 0 then L - 1 else hi - 1).
  { destruct (Z.ltb_spec (hi - 1) 0).
    - replace (hi - 1) with (-1) by lia.
      symmetry. apply Z.mod_unique_pos with (q := -1); lia.
    - apply Z.mod_small. lia. }
  split.
  - intros Hmove. rewrite Hdec in Hmove.
    unfold getPrevRegistersAsync, getNextRegisters.
    cbn [history historyIndex historyWriteIndex maxSize revDbgHistory
         reverseDbgStack]. fold L.
    destruct (Z.ltb_spec hi 0); [lia|].
    rewrite (proj2 (Z.eqb_neq _ _) Hmove).
    cbn [snd history historyIndex historyWriteIndex maxSize revDbgHistory
         reverseDbgStack]. fold L.
    rewrite (proj2 (Z.eqb_neq _ _) Hmove).
    destruct (Z.ltb_spec (hi - 1) 0).
    + destruct (Z.geb_spec (L - 1 + 1) L); [|lia].
      replace hi with 0 by lia. reflexivity.
    + destruct (Z.geb_spec (hi - 1 + 1) L); [lia|].
      replace (hi - 1 + 1) with hi by lia. reflexivity.
  - intros Hnw.
    unfold getPrevRegistersAsync, getNextRegisters.
    cbn [history historyIndex historyWriteIndex maxSize revDbgHistory
         reverseDbgStack]. fold L.
    rewrite (proj2 (Z.eqb_neq _ _) Hnw).
    cbn [snd history historyIndex historyWriteIndex maxSize revDbgHistory
         reverseDbgStack]. fold L.
    destruct (Z.geb_spec (hi + 1) L).
    + cbn [Z.ltb Z.compare Z.sub Z.add Z.opp Z.pos_sub].
      assert (Hhi : hi = L - 1) by lia.
      replace (L - 1 =? w) with false by (symmetry; apply Z.eqb_neq; lia).
      rewrite Hhi. reflexivity.
    + destruct (Z.ltb_spec (hi + 1) 0); [lia|].
      destruct (Z.ltb_spec (hi + 1 - 1) 0); [lia|].
      replace (hi + 1 - 1) with hi by lia.
      rewrite (proj2 (Z.eqb_neq _ _) Hnw). reflexivity.
Qed.

(** **** Addresses around the read cursor *)

Section SpotFacts.
Variable getAddress : option Info -> Z.
Variable parsePC : option Info -> Z.

(** X4.  getPreviousAddress does not move the read cursor and looks where
    steps back would go: at the position [j] steps behind the write
    cursor, [getPreviousAddress(i)], for [i >= 1] with [j + i] below the
    length of the buffer, is the address of the line that the [i]-th of
    [i] steps back returns. *)
Theorem X4_getPreviousAddress_agrees_with_steps_back s (j : Z) (i : nat) :
  let L := Js.len (history s) in
  let w := historyWriteIndex s in
  let s' := setHistoryIndex s ((w - j) mod L) in
  0 <= w < L -> 0 <= j -> (0 < i)%nat -> j + Z.of_nat i < L ->
  getPreviousAddress getAddress (Z.of_nat i) s'
  = Some (getAddress (last (fst (stepBacks i s')) None)).
Proof.
  intros L w s' Hw Hj Hi HjL. subst s'.
  pose proof (stepBacks_at i s j) as Hs. cbv zeta in Hs.
  fold L w in Hs. rewrite Hs by lia. cbn [fst].
  destruct i as [|i]; [lia|].
  rewrite seq_S, map_app. cbn [map Nat.add]. rewrite last_last.
  replace (j + 1 + Z.of_nat i) with (j + Z.of_nat (S i)) by lia.
  set (d := Z.of_nat (S i)) in *.
  assert (HL : 0 < L) by lia.
  pose proof (Z.mod_pos_bound (w - j) L HL) as Hb.
  unfold getPreviousAddress, setHistoryIndex.
  cbn [history historyIndex historyWriteIndex]. fold L w.
  destruct (Z.eqb_spec L 0); [lia|].
  assert (Hk : (if (w - j) mod L - d <? 0 then (w - j) mod L - d + L
                else (w - j) mod L - d) = (w - (j + d)) mod L).
  { replace (w - (j + d)) with (w - j - d) by lia.
    rewrite <- (Zminus_mod_idemp_l (w - j) d L).
    destruct (Z.ltb_spec ((w - j) mod L - d) 0).
    - apply Z.mod_unique_pos with (q := -1); lia.
    - symmetry. apply Z.mod_small. lia. }
  rewrite Hk.
  rewrite (proj2 (Z.eqb_neq _ _)) by (apply mod_back_neq; lia).
  reflexivity.
Qed.

(** The first loop of emitHistorySpot, started [j] steps behind the write
    cursor, walks back until the oldest line or until [k] addresses are
    collected. *)
Lemma spotBefore_at s (k : nat) : forall (j : Z),
  let L := Js.len (history s) in
  let w := historyWriteIndex s in
  0 <= w < L -> 0 <= j < L ->
  spotBefore parsePC s k ((w - j) mod L)
  = map (fun i => parsePC (Js.get (history s) ((w - (j + Z.of_nat i)) mod L)))
        (seq 0 (Nat.min k (Z.to_nat (L - j)))).
Proof.
  induction k as [|k IH]; intros j L w Hw Hj; subst L w; [reflexivity|].
  set (L := Js.len (history s)) in *. set (w := historyWriteIndex s) in *.
  assert (Hq : (if (w - j) mod L - 1 <? 0 then L - 1 else (w - j) mod L - 1)
               = (w - (j + 1)) mod L).
  { pose proof (Z.mod_pos_bound (w - j) L ltac:(lia)) as Hb.
    replace (w - (j + 1)) with (w - j - 1) by lia.
    rewrite <- (Zminus_mod_idemp_l (w - j) 1 L).
    destruct (Z.ltb_spec ((w - j) mod L - 1) 0).
    - replace ((w - j) mod L) with 0 by lia.
      apply Z.mod_unique_pos with (q := -1); lia.
    - symmetry. apply Z.mod_small. lia. }
  cbn [spotBefore]. fold L w. rewrite Hq.
  destruct (Z.eq_dec (j + 1) L) as [Hlast|Hmore].
  - assert (Hwrap : (w - (j + 1)) mod L = w).
    { replace (w - (j + 1)) with (w + (-1) * L) by lia.
      rewrite Z.mod_add by lia. apply Z.mod_small. lia. }
    rewrite Hwrap, Z.eqb_refl.
    replace (Z.to_nat (L - j)) with 1%nat by lia.
    rewrite Nat.min_comm. cbn [Nat.min seq map]. now rewrite Z.add_0_r.
  - rewrite (proj2 (Z.eqb_neq _ _)) by (apply mod_back_neq; lia).
    pose proof (IH (j + 1)) as IH'. cbv zeta in IH'. fold L w in IH'.
    rewrite IH' by lia.
    replace (Z.to_nat (L - j)) with (S (Z.to_nat (L - (j + 1)))) by lia.
    cbn [Nat.min seq map]. rewrite <- seq_shift, map_map, Z.add_0_r.
    f_equal. apply map_ext. intros i. do 3 f_equal. lia.
Qed.

(** X5.  The history spot in the live state: after [lines] have been
    pushed into a fresh history of capacity [m], emitHistorySpot with a
    positive spot count emits start index 0 and the PCs of the newest
    lines, the newest first: [spotCount+1] of them, or all lines that the
    buffer keeps if these are fewer.  With a spot count of 0 or less it
    emits nothing, and on a history without lines it fails. *)
Theorem X5_emitHistorySpot_live (spotCount m : Z) (lines : list Info) :
  0 < m ->
  let n := Js.len lines in
  let s : t Info RefList := pushAll lines (fresh m) in
  let shown := Nat.min (Z.to_nat (spotCount + 1)) (Z.to_nat (Z.min n m)) in
  emitHistorySpot parsePC spotCount s
  = if spotCount <=? 0 then SpotReturned None
    else if n =? 0 then SpotThrown
    else SpotReturned
           (Some (0, map (fun line => parsePC (Some line))
                         (firstn shown (rev lines)))).
Proof.
  intros Hm n s shown.
  destruct (pushAll_fresh (RefList := RefList) m lines Hm)
    as (Hmax & Hlen & Hwi & Hhi).
  fold n s in Hmax, Hlen, Hwi, Hhi.
  pose proof (JsFacts.len_nonneg lines) as Hn. fold n in Hn.
  unfold emitHistorySpot.
  destruct (Z.leb_spec spotCount 0) as [|Hcount]; [reflexivity|].
  rewrite Hlen, Hhi, Hwi.
  destruct (Z.eqb_spec n 0) as [Hn0|Hn0].
  - rewrite Hn0. replace (Z.min 0 m) with 0 by lia. reflexivity.
  - replace (Z.min n m >? 0) with true by (symmetry; apply Z.gtb_lt; lia).
    cbn [negb Z.ltb Z.compare].
    set (L := Z.min n m) in *. set (w := (n - 1) mod m) in *.
    assert (Hw : 0 <= w < L).
    { pose proof (Z.mod_pos_bound (n - 1) m Hm). unfold w, L.
      destruct (Z.le_gt_cases n m); [rewrite Z.mod_small by lia|]; lia. }
    assert (Hafter : spotAfter parsePC s (Z.to_nat spotCount) w
                       (spotBefore parsePC s (Z.to_nat (spotCount + 1)) w)
                     = (w, spotBefore parsePC s (Z.to_nat (spotCount + 1)) w)).
    { destruct (Z.to_nat spotCount); [reflexivity|].
      cbn [spotAfter]. now rewrite Hwi, Z.eqb_refl. }
    rewrite Hafter, Z.sub_diag. cbn [Z.ltb Z.compare].
    do 3 f_equal.
    pose proof (spotBefore_at s (Z.to_nat (spotCount + 1)) 0) as Hb.
    cbv zeta in Hb. rewrite Hlen, Hwi in Hb. fold L w in Hb.
    rewrite Z.sub_0_r, (Z.mod_small w L) in Hb by lia.
    rewrite Hb by lia. fold shown.
    replace (Z.to_nat (L - 0)) with (Z.to_nat L) by lia.
    fold shown.
    assert (Hshown : (shown <= List.length (rev lines))%nat).
    { rewrite length_rev. unfold shown, L, n, Js.len in *. lia. }
    rewrite <- (map_map Some parsePC), <- (map_nth_error_seq _ _ Hshown).
    rewrite map_map. apply map_ext_in. intros i Hi. apply in_seq in Hi.
    f_equal.
    assert (Hidx : (w - (0 + Z.of_nat i)) mod L
                   = (n - 1 - Z.of_nat i) mod m).
    { rewrite Z.add_0_l. unfold w, L. destruct (Z.le_gt_cases n m).
      - rewrite (Z.mod_small (n - 1)) by lia.
        rewrite !Z.mod_small by (unfold shown, L in *; lia). reflexivity.
      - replace (Z.min n m) with m by lia.
        rewrite Zminus_mod_idemp_l. reflexivity. }
    rewrite Hidx.
    pose proof (pushAll_contents m lines Hm (Z.of_nat i)) as Hc.
    cbv zeta in Hc. fold n s in Hc.
    rewrite Hc by (unfold shown, L in *; lia).
    rewrite nth_error_rev.
    replace (i <? List.length lines)%nat with true
      by (symmetry; apply Nat.ltb_lt; rewrite length_rev in Hshown; lia).
    f_equal. unfold n, Js.len in *. rewrite length_rev in Hshown. lia.
Qed.

End SpotFacts.

End HistoryExtras.

Lemma X1_witness_mixed_calls :
  let s : t Z unit :=
    calls [CallPush 1 false; CallPush 2 true; CallPrev; CallPush 3 false;
           CallPush 4 false; CallPrev; CallPrev; CallClear; CallNext]
          (fresh 2) in
  maxSize s = 2 /\
  0 <= Js.len (history s) <= 2 /\
  (history s = [] -> historyWriteIndex s = -1 /\ historyIndex s = -1) /\
  (history s <> [] -> 0 <= historyWriteIndex s < Js.len (history s)) /\
  -1 <= historyIndex s < Z.max 0 (Js.len (history s)).
Proof.
  apply (@X1_history_invariant_any_calls Z unit 2). reflexivity.
Defined.

Lemma X2_witness_three_in_two :
  fst (stepBacks 2 three_in_two) = [Some 30; Some 20] /\
  getPrevRegistersAsync (snd (stepBacks 2 three_in_two))
  = (None, snd (stepBacks 2 three_in_two)).
Proof.
  exact (@X2_step_back_returns_kept_lines_newest_first Z unit 2 [10; 20; 30]
           eq_refl).
Defined.

Lemma X3_witness_rewound_one :
  let s := snd (getPrevRegistersAsync (pushAll [11; 22; 33] (fresh 4)))
           : t Z unit in
  getPrevRegistersAsync (snd (getNextRegisters
     (snd (getPrevRegistersAsync s))))
  = (Some 22, snd (getPrevRegistersAsync s)).
Proof.
  refine (proj2 (@X3_step_forward_and_back_cancel Z unit
                   (snd (getPrevRegistersAsync
                      (snd (getPrevRegistersAsync
                         (pushAll [11; 22; 33] (fresh 4))))))
                   _ _ _) _).
  - right. vm_compute. repeat split; discriminate.
  - discriminate.
  - discriminate.
  - discriminate.
Defined.

Lemma X4_witness_three_lines :
  let s := setHistoryIndex (pushAll [11; 22; 33] (fresh 4) : t Z unit)
             ((2 - 0) mod 3) in
  getPreviousAddress (fun line => match line with Some a => a | None => 0 end)
                     (Z.of_nat 2) s
  = Some (match last (fst (stepBacks 2 s)) None with
          | Some a => a
          | None => 0
          end).
Proof.
  apply (@X4_getPreviousAddress_agrees_with_steps_back Z unit
           (fun line => match line with Some a => a | None => 0 end)
           (pushAll [11; 22; 33] (fresh 4)) 0 2).
  - vm_compute. split; [discriminate|reflexivity].
  - discriminate.
  - repeat constructor.
  - reflexivity.
Defined.

Lemma X5_witness_three_in_two :
  emitHistorySpot (fun line => match line with Some a => a | None => 0 end)
                  5 three_in_two
  = SpotReturned (Some (0, [30; 20])).
Proof.
  exact (@X5_emitHistorySpot_live Z unit
           (fun line => match line with Some a => a | None => 0 end)
           5 2 [10; 20; 30] eq_refl).
Defined.

End HistoryProofs.

(** ** The memory models *)
Module PagingProofs.
Import Paging.
Local Open Scope string_scope.
Local Open Scope Z_scope.

(** *** Facts about chains of descriptors *)

Lemma chained_cons p b r :
  chained p (b :: r) = true <->
  start b = p + 1 /\ start b <= end_ b /\ chained (end_ b) r = true.
Proof.
  simpl. rewrite !andb_true_iff, Z.eqb_eq, Z.leb_le. tauto.
Qed.

Lemma chained_bounds l : forall p b,
  chained p l = true -> In b l -> p < start b /\ start b <= end_ b.
Proof.
  induction l as [|b0 r IH]; intros p b Hc Hin; [contradiction|].
  apply chained_cons in Hc. destruct Hc as (Hs & Hle & Hr).
  destruct Hin as [->|Hin]; [lia|].
  destruct (IH _ _ Hr Hin). lia.
Qed.

Lemma chained_last l : forall p d,
  chained p l = true -> l <> [] -> end_ (last l d) = 0xFFFF.
Proof.
  induction l as [|b r IH]; intros p d Hc Hne; [contradiction|].
  apply chained_cons in Hc. destruct Hc as (_ & _ & Hr).
  destruct r as [|c r'].
  - simpl in *. now apply Z.eqb_eq.
  - change (last (b :: c :: r') d) with (last (c :: r') d).
    apply (IH (end_ b)); auto. discriminate.
Qed.

Lemma chained_adjacent l : forall p i b c,
  chained p l = true ->
  nth_error l i = Some b -> nth_error l (S i) = Some c ->
  start b < start c /\ start c = end_ b + 1.
Proof.
  induction l as [|b0 r IH]; intros p i b c Hc Hb Hn.
  - destruct i; discriminate.
  - apply chained_cons in Hc. destruct Hc as (Hs & Hle & Hr).
    destruct i as [|i]; simpl in Hb, Hn.
    + injection Hb as <-. destruct r as [|c0 r']; [discriminate|].
      injection Hn as <-. apply chained_cons in Hr. lia.
    + apply (IH (end_ b0) i); auto.
Qed.

Lemma chained_covers l : forall p a,
  chained p l = true -> p < a <= 0xFFFF ->
  exists i b, nth_error l i = Some b /\ covers b a /\
    forall j c, nth_error l j = Some c -> covers c a -> j = i.
Proof.
  induction l as [|b r IH]; intros p a Hc Ha.
  - simpl in Hc. apply Z.eqb_eq in Hc. lia.
  - apply chained_cons in Hc. destruct Hc as (Hs & Hle & Hr).
    destruct (Z_le_gt_dec a (end_ b)) as [Hin|Hout].
    + exists O, b. repeat split; auto; try lia.
      intros [|j] c Hj Hcov; auto. simpl in Hj.
      apply nth_error_In in Hj.
      destruct (chained_bounds _ _ _ Hr Hj). unfold covers in Hcov. lia.
    + destruct (IH (end_ b) a Hr ltac:(lia)) as (i & c & Hi & Hcov & Huniq).
      exists (S i), c. repeat split; auto; try apply Hcov.
      intros [|j] c' Hj Hcov'; simpl in Hj.
      * injection Hj as <-. unfold covers in Hcov'. lia.
      * f_equal. eapply Huniq; eauto.
Qed.

Lemma partitions16_exact l : partitions16 l = true -> ExactPartition l.
Proof.
  intros H. destruct l as [|b r]; [discriminate|].
  unfold partitions16 in H. repeat split.
  - exists b, r. split; auto. apply chained_cons in H. lia.
  - intros d. apply (chained_last _ (-1)); auto. discriminate.
  - eapply chained_adjacent; eauto.
  - eapply chained_adjacent; eauto.
  - intros a Ha. apply (chained_covers _ (-1)); auto. lia.
Qed.

(** The descriptors that [slots.map] builds from bank size [size], one per
    slot, chain up to the end of the last slot. *)
Lemma chained_mapi_from (size : Z) (naming : Z -> Z -> string) (l : list Z) :
  1 <= size -> forall i,
  chained (i * size - 1)
    (Js.mapi_from i
       (fun bank i => mkBank (i * size) (i * size + size - 1) (naming bank i))
       l)
  = ((i + Js.len l) * size - 1 =? 0xFFFF).
Proof.
  intros Hsize. induction l as [|x r IH]; intros i.
  - unfold Js.len. simpl. now rewrite Z.add_0_r.
  - simpl. rewrite (proj2 (Z.eqb_eq _ _)) by lia.
    rewrite (proj2 (Z.leb_le _ _)) by lia. simpl.
    replace (i * size + size - 1) with ((i + 1) * size - 1) by lia.
    rewrite IH. f_equal. unfold Js.len. simpl List.length. lia.
Qed.

Lemma partitions16_mapi (n : Z) (naming : Z -> Z -> string) (l : list Z) :
  validSlotCount n -> Js.len l = n ->
  partitions16
    (Js.mapi
       (fun bank i =>
          mkBank (i * (0x10000 / n)) (i * (0x10000 / n) + 0x10000 / n - 1)
                 (naming bank i)) l) = true.
Proof.
  intros [Hn Hdiv] Hlen.
  assert (Hmul : n * (0x10000 / n) = 0x10000).
  { symmetry. apply Z.div_exact; lia. }
  assert (Hsize : 1 <= 0x10000 / n) by nia.
  destruct l as [|x r].
  - unfold Js.len in Hlen. simpl in Hlen. lia.
  - pose proof (chained_mapi_from (0x10000 / n) naming (x :: r) Hsize 0) as H.
    rewrite Hlen in H.
    unfold partitions16, Js.mapi. cbn [Js.mapi_from] in *.
    replace (0 * (65536 / n) - 1) with (-1) in H by lia.
    rewrite H. apply Z.eqb_eq. lia.
Qed.

(** *** C1 *)

(** C1 (getMemoryBanks).  For every concrete memory model (the fixed
    ZX16 and ZX48 models, the paged ZX128 and ZX Next models, the models of
    a custom memory) whose slot count splits the 64k, and every slot
    assignment that gives a bank to each of its slots, getMemoryBanks
    returns descriptors in ascending order that partition 0..0xFFFF: the
    first starts at 0, the last ends at 0xFFFF, and each one starts at the
    end of its predecessor plus 1, so that every address lies in exactly
    one of them. *)
Theorem C1_getMemoryBanks_partitions_64k (m : MemoryModel) (l : list Z) :
  Concrete m -> assignmentFor m l ->
  exists banks,
    getMemoryBanks m (Some l) = Some banks /\
    partitions16 banks = true /\
    ExactPartition banks.
Proof.
  intros Hm Hl.
  assert (H : exists banks, getMemoryBanks m (Some l) = Some banks
                            /\ partitions16 banks = true).
  { destruct Hm as [| |n Hn| |owner Hn|owner Hn]; simpl in Hl;
      eexists; (split; [reflexivity|]);
      try reflexivity; unfold bankSize; simpl slotCount;
      apply partitions16_mapi; auto.
    split; [lia|reflexivity]. }
  destruct H as (banks & Hget & Hpart).
  exists banks. split; [|split]; auto. apply partitions16_exact; auto.
Qed.

(** The descriptors of the ZX128 model for the slots 0, 1, 2, 3, and of a
    custom memory with a single slot of 64k RAM. *)
Example getMemoryBanks_zx128 :
  getMemoryBanks (Zx128MemoryModel 4) (Some [0; 1; 2; 3])
  = Some [mkBank 0x0000 0x3FFF "ROM0"; mkBank 0x4000 0x7FFF "BANK1";
          mkBank 0x8000 0xBFFF "BANK2"; mkBank 0xC000 0xFFFF "BANK3"].
Proof. reflexivity. Qed.

Example getMemoryBanks_flat_ram :
  getMemoryBanks (CustomMemoryModel (mkCustomMemory [0] [false] (-1) [true]))
                 None
  = Some [mkBank 0x0000 0xFFFF "RAM"].
Proof. reflexivity. Qed.

(** The ZX128 model with the slots of the simulated ZX128. *)
Lemma C1_witness_zx128 :
  exists banks,
    getMemoryBanks (Zx128MemoryModel 4) (Some [8; 5; 2; 0]) = Some banks /\
    partitions16 banks = true /\
    ExactPartition banks.
Proof.
  apply (C1_getMemoryBanks_partitions_64k (Zx128MemoryModel 4) [8; 5; 2; 0]).
  - apply concrete_zx128. split; [lia|reflexivity].
  - reflexivity.
Defined.

(** *** The decoders and the descriptors *)

Lemma ushr_16bit (address shift : Z) :
  0 <= address <= 0xFFFF -> 0 <= shift ->
  ushr address shift = address / 2 ^ shift.
Proof.
  intros Ha Hs. unfold ushr. rewrite Z.mod_small by lia.
  apply Z.shiftr_div_pow2. assumption.
Qed.

(** The slot index of a 16 bit address, for the shift and the mask of a
    model with [2^bits] slots. *)
Lemma slotIndex_div (bits address : Z) :
  0 <= bits <= 16 -> 0 <= address <= 0xFFFF ->
  slotIndex (16 - bits) (2 ^ bits - 1) address = address / 2 ^ (16 - bits) /\
  0 <= address / 2 ^ (16 - bits) < 2 ^ bits.
Proof.
  intros Hb Ha. unfold slotIndex. rewrite ushr_16bit by lia.
  assert (Hpow : 2 ^ (16 - bits) * 2 ^ bits = 0x10000).
  { rewrite <- Z.pow_add_r by lia. replace (16 - bits + bits) with 16 by lia.
    reflexivity. }
  assert (Hp1 : 0 < 2 ^ (16 - bits)) by (apply Z.pow_pos_nonneg; lia).
  assert (Hp2 : 0 < 2 ^ bits) by (apply Z.pow_pos_nonneg; lia).
  assert (Hq : 0 <= address / 2 ^ (16 - bits) < 2 ^ bits).
  { split; [apply Z.div_pos; lia|]. apply Z.div_lt_upper_bound; lia. }
  split; [|exact Hq].
  replace (2 ^ bits - 1) with (Z.ones bits)
    by (rewrite Z.ones_equiv; lia).
  rewrite Z.land_ones by lia. apply Z.mod_small. exact Hq.
Qed.

Lemma nth_error_mapi_from {A B : Type} (f : A -> Z -> B) (l : list A) :
  forall (i : Z) (k : nat) (x : A),
  nth_error l k = Some x ->
  nth_error (Js.mapi_from i f l) k = Some (f x (i + Z.of_nat k)).
Proof.
  induction l as [|y r IH]; intros i [|k] x H; simpl in *; try discriminate.
  - injection H as ->. now rewrite Z.add_0_r.
  - rewrite (IH (i + 1) k x H). do 2 f_equal. lia.
Qed.

Lemma nth_error_some_below {A : Type} (l : list A) (k : nat) :
  (k < List.length l)%nat -> exists x, nth_error l k = Some x.
Proof.
  intros H. destruct (nth_error l k) eqn:E; [eauto|].
  apply nth_error_None in E. lia.
Qed.

Lemma paged_model_facts (m : MemoryModel) (bits : Z) :
  slotBits m = Some bits ->
  0 <= bits <= 16 /\
  slotCount m = 2 ^ bits /\ bankSize m = 2 ^ (16 - bits) /\
  init m = Some (longAddress (16 - bits), slotIndex (16 - bits) (2 ^ bits - 1)) /\
  forall l, exists naming,
    getMemoryBanks m (Some l)
    = Some (Js.mapi (fun bank i =>
                       mkBank (i * 2 ^ (16 - bits))
                              (i * 2 ^ (16 - bits) + 2 ^ (16 - bits) - 1)
                              (naming bank i)) l).
Proof.
  destruct m as [| [|[|[|[| |]|]|]|] | | |]; try discriminate;
    intros H; injection H as <-;
    (split; [lia|]); (split; [reflexivity|]); (split; [reflexivity|]);
    (split; [reflexivity|]); intros l; eexists; reflexivity.
Qed.

(** X6.  The decoders agree with the descriptors: for the ZX128 model
    with its 4 slots and for the ZX Next model, the slot index that the
    registered decoder gives for a 16 bit address is the number of the
    descriptor of getMemoryBanks that the address lies in. *)
Theorem X6_slotIndex_selects_the_covering_bank
  (m : MemoryModel) (bits address : Z) (l : list Z) :
  slotBits m = Some bits ->
  0 <= address <= 0xFFFF ->
  Js.len l = slotCount m ->
  exists long index banks b,
    init m = Some (long, index) /\
    getMemoryBanks m (Some l) = Some banks /\
    0 <= index address < slotCount m /\
    nth_error banks (Z.to_nat (index address)) = Some b /\
    covers b address.
Proof.
  intros Hm Ha Hl.
  destruct (paged_model_facts m bits Hm) as (Hb & Hcount & Hsize & Hinit & Hbanks).
  destruct (Hbanks l) as (naming & Hget).
  destruct (slotIndex_div bits address Hb Ha) as (Hidx & Hrange).
  set (i := address / 2 ^ (16 - bits)) in *.
  destruct (nth_error_some_below l (Z.to_nat i)) as (bank & Hbank).
  { unfold Js.len in Hl. lia. }
  eexists _, _, _, _. split; [exact Hinit|]. split; [exact Hget|].
  rewrite Hidx, Hcount. split; [exact Hrange|]. split.
  - unfold Js.mapi. apply nth_error_mapi_from. exact Hbank.
  - unfold covers. cbn [start end_].
    assert (Hp : 0 < 2 ^ (16 - bits)) by (apply Z.pow_pos_nonneg; lia).
    pose proof (Z.div_mod address (2 ^ (16 - bits)) ltac:(lia)) as Hd.
    pose proof (Z.mod_pos_bound address (2 ^ (16 - bits)) Hp) as Hr.
    fold i in Hd. rewrite Z.add_0_l, Z2Nat.id by lia. lia.
Qed.

(** X7.  The long address of a 16 bit address in a slot that holds the
    bank [bank] is the address plus [(bank+1) * 0x10000], for banks up to
    0x7FFE: its low 16 bits are the address and the bits above them are the
    bank number plus 1, so that it tells both apart without the slots. *)
Theorem X7_longAddress_is_bank_and_address
  (m : MemoryModel) (bits address bank : Z) (l : list Z) :
  slotBits m = Some bits ->
  0 <= address <= 0xFFFF ->
  0 <= bank + 1 < 2 ^ 15 ->
  exists long index,
    init m = Some (long, index) /\
    (nth_error l (Z.to_nat (index address)) = Some bank ->
     long address l = address + (bank + 1) * 0x10000 /\
     long address l mod 0x10000 = address /\
     long address l / 0x10000 = bank + 1).
Proof.
  intros Hm Ha Hbank.
  destruct (paged_model_facts m bits Hm) as (Hb & _ & _ & Hinit & _).
  destruct (slotIndex_div bits address Hb Ha) as (Hidx & Hrange).
  eexists _, _. split; [exact Hinit|]. rewrite Hidx. intros Hslot.
  assert (Hlong : longAddress (16 - bits) address l
                  = address + (bank + 1) * 0x10000).
  { unfold longAddress, slotAt. rewrite ushr_16bit by lia.
    destruct (Z.ltb_spec (address / 2 ^ (16 - bits)) 0); [lia|].
    rewrite Hslot. cbn [succNum].
    assert (H1 : Js.toInt32 (Some (bank + 1)) = bank + 1).
    { unfold Js.toInt32. rewrite Z.mod_small; lia. }
    rewrite H1, Z.shiftl_mul_pow2 by lia.
    unfold Js.toInt32. rewrite Z.mod_small; lia. }
  rewrite Hlong. split; [reflexivity|]. split.
  - rewrite Z.mod_add by lia. apply Z.mod_small. lia.
  - rewrite Z.div_add by lia. rewrite Z.div_small by lia. lia.
Qed.

Lemma X6_witness_zx128 :
  exists long index banks b,
    init (Zx128MemoryModel 4) = Some (long, index) /\
    getMemoryBanks (Zx128MemoryModel 4) (Some [8; 5; 2; 0]) = Some banks /\
    0 <= index 0x9000 < slotCount (Zx128MemoryModel 4) /\
    nth_error banks (Z.to_nat (index 0x9000)) = Some b /\
    covers b 0x9000.
Proof.
  apply (X6_slotIndex_selects_the_covering_bank
           (Zx128MemoryModel 4) 2 0x9000 [8; 5; 2; 0]).
  - reflexivity.
  - split; discriminate.
  - reflexivity.
Defined.

Lemma X7_witness_zxnext :
  exists long index,
    init ZxNextMemoryModel = Some (long, index) /\
    (nth_error [254; 255; 10; 11; 4; 5; 0; 1] (Z.to_nat (index 0x4001))
     = Some 10 ->
     long 0x4001 [254; 255; 10; 11; 4; 5; 0; 1] = 0x4001 + (10 + 1) * 0x10000 /\
     long 0x4001 [254; 255; 10; 11; 4; 5; 0; 1] mod 0x10000 = 0x4001 /\
     long 0x4001 [254; 255; 10; 11; 4; 5; 0; 1] / 0x10000 = 10 + 1).
Proof.
  apply (X7_longAddress_is_bank_and_address ZxNextMemoryModel 3 0x4001 10
           [254; 255; 10; 11; 4; 5; 0; 1]).
  - reflexivity.
  - split; discriminate.
  - split; [discriminate|reflexivity].
Defined.

(** *** The slots of a custom memory *)

Lemma some_inj {A : Type} (a b : A) : Some a = Some b -> a = b.
Proof. congruence. Qed.

Lemma fillGaps_cons (prev : option SlotInfo) (slot : SlotInfo)
  (rest out : list SlotInfo) :
  fillGaps prev (slot :: rest) = Some out -> exists tl, out = slot :: tl.
Proof.
  intros H. cbn [fillGaps] in H.
  repeat match type of H with
         | (if ?c then None else _) = _ => destruct c; [discriminate|]
         end.
  destruct rest as [|next rest'].
  - apply some_inj in H. eexists. symmetry. exact H.
  - destruct (negb (end' slot <? begin next)); [discriminate|].
    destruct (fillGaps (Some slot) (next :: rest')); [|discriminate].
    apply some_inj in H. eexists. symmetry. exact H.
Qed.

Lemma fillGaps_chained (l : list SlotInfo) : forall prev out first rest,
  fillGaps prev l = Some out ->
  l = first :: rest ->
  Forall (fun slot => begin slot <= end' slot) l ->
  chained (begin first - 1) (map bankOfSlot out) = true.
Proof.
  induction l as [|slot l' IH]; intros prev out first rest Hfill Hl Hne;
    [discriminate|].
  injection Hl as <- <-.
  apply Forall_cons_iff in Hne. destruct Hne as [Hslot Hne].
  cbn [fillGaps] in Hfill.
  destruct (negb (Z.rem (size slot) 1024 =? 0)); [discriminate|].
  destruct ((begin slot >=? 0) && (end' slot <? 65536)) eqn:Hrange;
    [|discriminate].
  apply andb_true_iff in Hrange. destruct Hrange as [_ Hend].
  apply Z.ltb_lt in Hend. cbn [negb] in Hfill.
  destruct (match prev with
            | Some p => negb (begin slot >? end' p)
            | None => false
            end); [discriminate|].
  destruct l' as [|next l''].
  - apply some_inj in Hfill; subst out.
    destruct (Z.ltb_spec (end' slot) 65535);
      cbn [map bankOfSlot chained start end_ app unpopulatedSlot begin end'];
      repeat (apply andb_true_iff; split);
      try apply Z.eqb_eq; try apply Z.leb_le; lia.
  - destruct (Z.ltb_spec (end' slot) (begin next)) as [Hlt|]; [|discriminate].
    cbn [negb] in Hfill.
    destruct (fillGaps (Some slot) (next :: l'')) as [list|] eqn:Hrest;
      [|discriminate].
    apply some_inj in Hfill; subst out.
    specialize (IH (Some slot) list next l'' Hrest eq_refl Hne).
    destruct (Z.ltb_spec (end' slot + 1) (begin next));
      cbn [map bankOfSlot chained start end_ app unpopulatedSlot begin end'];
      repeat (apply andb_true_iff; split);
      try apply Z.eqb_eq; try apply Z.leb_le; try lia.
    + exact IH.
    + replace (end' slot) with (begin next - 1) by lia. exact IH.
Qed.

(** X8.  When the constructor of CustomMemory accepts a configuration
    whose first slot begins at address 0 and whose slots are not empty,
    the slots it works with, the declared ones and the unpopulated ones it
    puts into the gaps, partition the 64k: they are in ascending order,
    each begins at the end of the one before plus 1, and the last one ends
    at 0xFFFF. *)
Theorem X8_customSlots_partition_the_64k
  (memModel : list (option string * (Z * Z) * option Z))
  (out : list SlotInfo) :
  customSlots memModel = Some out ->
  (exists c rest, memModel = c :: rest /\ fst (rangeOf c) = 0) ->
  Forall (fun c => fst (rangeOf c) <= snd (rangeOf c)) memModel ->
  partitions16 (map bankOfSlot out) = true /\
  ExactPartition (map bankOfSlot out).
Proof.
  intros Hslots (c & rest & -> & Hzero) Hne.
  assert (H : partitions16 (map bankOfSlot out) = true).
  { unfold customSlots in Hslots. cbn [map] in Hslots.
    destruct c as [[rom0 range0] banked0]. cbn [rangeOf fst snd] in Hzero.
    pose proof (fillGaps_chained _ None out _ _ Hslots eq_refl) as Hc.
    cbn [slotInfoOf begin] in Hc. rewrite Hzero in Hc.
    destruct (fillGaps_cons _ _ _ _ Hslots) as [tl ->].
    unfold partitions16.
    cbn [map]. apply Hc.
    apply Forall_cons_iff in Hne. destruct Hne as [Hc0 Hne].
    constructor; [exact Hc0|].
    apply Forall_map. apply (Forall_impl _ (P := fun c => fst (rangeOf c) <= snd (rangeOf c))); [|exact Hne].
    intros [[r rg] b] Hx. exact Hx. }
  split; [exact H|]. apply partitions16_exact. exact H.
Qed.

Lemma fillGaps_accepts (l : list SlotInfo) : forall prev,
  fillGaps prev l <> None <->
  Forall (fun slot => Z.rem (size slot) 1024 = 0 /\
                      0 <= begin slot /\ end' slot < 0x10000) l /\
  ascending (map (fun slot => (begin slot, end' slot)) l) /\
  match prev, l with
  | Some p, slot :: _ => end' p < begin slot
  | _, _ => True
  end.
Proof.
  induction l as [|slot l' IH]; intros prev.
  - cbn. split; [intros _; repeat split; [constructor | now destruct prev]
                |intros _; discriminate].
  - cbn [fillGaps map ascending].
    rewrite Forall_cons_iff.
    destruct (Z.eqb_spec (Z.rem (size slot) 1024) 0) as [Hrem|Hrem];
      cbn [negb]; [|split; [congruence|tauto]].
    destruct (Z.geb_spec (begin slot) 0) as [Hb|Hb];
      cbn [andb negb]; [|split; [congruence|lia]].
    destruct (Z.ltb_spec (end' slot) 65536) as [He|He];
      cbn [negb]; [|split; [congruence|lia]].
    assert (Hprev : (match prev with
                     | Some p => negb (begin slot >? end' p)
                     | None => false
                     end) = false <->
                    match prev with
                    | Some p => end' p < begin slot
                    | None => True
                    end).
    { destruct prev as [p|]; [|tauto].
      rewrite Z.gtb_ltb. destruct (Z.ltb_spec (end' p) (begin slot));
        cbn [negb]; split; intros; try congruence; lia. }
    destruct (match prev with
              | Some p => negb (begin slot >? end' p)
              | None => false
              end).
    { split; [congruence|]. intros (_ & _ & H). apply Hprev in H.
      discriminate. }
    assert (Hp : match prev with
                 | Some p => end' p < begin slot
                 | None => True
                 end) by now apply Hprev.
    destruct l' as [|next l''].
    + split; [intros _|discriminate].
      repeat split; try assumption; try lia. constructor.
    + specialize (IH (Some slot)).
      cbn [map] in IH |- *. cbn [fst snd].
      destruct (Z.ltb_spec (end' slot) (begin next)) as [Hlt|Hlt];
        cbn [negb]; [|split; [congruence|lia]].
      destruct (fillGaps (Some slot) (next :: l'')) as [list|].
      * split; [intros _|discriminate].
        assert (Hsome : Some list <> None) by discriminate.
        apply IH in Hsome. destruct Hsome as (Hall & Hasc & _).
        repeat split; try assumption; lia.
      * split; [congruence|]. intros ((_ & Hall) & (Hlt' & Hasc) & _).
        exfalso. assert (Hn : @None (list SlotInfo) <> None); [|congruence].
        apply IH. repeat split; assumption.
Qed.

(** X9.  The assertions of the constructor of CustomMemory accept a
    configuration exactly when every slot has a size that is a multiple of
    1K, begins at 0 or above and ends below 0x10000, and every slot ends
    before the next one begins; nothing else is asked: the first slot need
    not begin at 0, and a slot may be empty. *)
Theorem X9_customSlots_accepts_ordered_1K_slots
  (memModel : list (option string * (Z * Z) * option Z)) :
  customSlots memModel <> None <->
  Forall slotInRange (map rangeOf memModel) /\
  ascending (map rangeOf memModel).
Proof.
  unfold customSlots. rewrite fillGaps_accepts.
  rewrite !map_map, !Forall_map.
  assert (Hmap : map (fun x => (begin (let '(rom, range, bankedCount) := x in
                                       slotInfoOf rom range bankedCount),
                                end' (let '(rom, range, bankedCount) := x in
                                      slotInfoOf rom range bankedCount)))
                     memModel = map rangeOf memModel).
  { apply map_ext. intros [[r [b e]] c]. reflexivity. }
  rewrite Hmap. split.
  - intros (Hall & Hasc & _). split; [|exact Hasc].
    eapply Forall_impl; [|exact Hall].
    intros [[r [b e]] c]. cbn. unfold slotInRange. cbn. tauto.
  - intros (Hall & Hasc). repeat split; [|exact Hasc].
    eapply Forall_impl; [|exact Hall].
    intros [[r [b e]] c]. unfold slotInRange. cbn. tauto.
Qed.

(** X10.  The constructor keeps the declared slots: taken without the
    unpopulated slots that fill the gaps, the slots it works with are the
    declared ones, in their order; and every slot it adds is unpopulated,
    has no ROM and one bank. *)
Theorem X10_customSlots_keep_the_declared_slots
  (memModel : list (option string * (Z * Z) * option Z))
  (out : list SlotInfo) :
  customSlots memModel = Some out ->
  filter populated out =
    map (fun '(rom, range, bankedCount) => slotInfoOf rom range bankedCount)
        memModel /\
  Forall (fun slot => populated slot = false ->
                      rom slot = None /\ bankCount slot = 1 /\
                      size slot = end' slot - begin slot + 1) out.
Proof.
  unfold customSlots.
  set (f := fun '(rom, range, bankedCount) => slotInfoOf rom range bankedCount).
  assert (Hpop : forall c, populated (f c) = true) by now intros [[r g] c].
  generalize (@None SlotInfo) as prev. revert out.
  induction memModel as [|c rest IH]; intros out prev Hfill.
  - apply some_inj in Hfill; subst out. split; [reflexivity|constructor].
  - cbn [map fillGaps] in Hfill.
    repeat match type of Hfill with
           | (if ?c then None else _) = _ => destruct c; [discriminate|]
           end.
    destruct rest as [|c' rest'].
    + cbn [map] in Hfill. apply some_inj in Hfill; subst out.
      cbn [filter map]. rewrite Hpop.
      destruct (end' (f c) <? 65535); cbn [filter unpopulatedSlot populated];
        (split; [reflexivity|]);
        repeat (apply Forall_cons;
                [rewrite ?Hpop;
                 cbn [unpopulatedSlot populated rom bankCount size begin end'];
                 intros; first [discriminate | repeat split; lia]|]);
        first [apply Forall_nil | assumption].
    + cbn [map] in Hfill, IH |- *.
      destruct (negb (end' (f c) <? begin (f c'))); [discriminate|].
      destruct (fillGaps (Some (f c)) (f c' :: map f rest')) as [list|] eqn:Hr;
        [|discriminate].
      apply some_inj in Hfill; subst out.
      destruct (IH list (Some (f c)) Hr) as [IH1 IH2].
      cbn [filter]. rewrite Hpop.
      destruct (end' (f c) + 1 <? begin (f c'));
        cbn [app filter unpopulatedSlot populated]; rewrite IH1;
        (split; [reflexivity|]);
        repeat (apply Forall_cons;
                [rewrite ?Hpop;
                 cbn [unpopulatedSlot populated rom bankCount size begin end'];
                 intros; first [discriminate | repeat split; lia]|]);
        first [apply Forall_nil | assumption].
Qed.

Lemma X8_witness_rom_and_banked :
  partitions16 (map bankOfSlot romAndBankedSlots) = true /\
  ExactPartition (map bankOfSlot romAndBankedSlots).
Proof.
  apply (X8_customSlots_partition_the_64k romAndBanked romAndBankedSlots).
  - reflexivity.
  - eexists; eexists; split; reflexivity.
  - repeat constructor; cbn; lia.
Defined.

Lemma X10_witness_rom_and_banked :
  filter populated romAndBankedSlots =
    map (fun '(rom, range, bankedCount) => slotInfoOf rom range bankedCount)
        romAndBanked /\
  Forall (fun slot => populated slot = false ->
                      rom slot = None /\ bankCount slot = 1 /\
                      size slot = end' slot - begin slot + 1)
         romAndBankedSlots.
Proof.
  apply (X10_customSlots_keep_the_declared_slots romAndBanked).
  reflexivity.
Defined.

(** *** The banks of the slots *)

Lemma ForallOrdPairs_snoc {A : Type} (R : A -> A -> Prop) (l : list A) (x : A) :
  ForallOrdPairs R l -> Forall (fun a => R a x) l ->
  ForallOrdPairs R (l ++ [x]).
Proof.
  induction 1 as [|a l Ha Hl IH]; intros Hx; cbn [app].
  - constructor; constructor.
  - apply Forall_cons_iff in Hx. destruct Hx as [Hax Hx].
    constructor; [|apply IH; exact Hx].
    apply Forall_app. split; [exact Ha|]. constructor; [exact Hax|constructor].
Qed.

Lemma allocateBank_allocated (state : list SlotInfo * Z * Z) (slot : SlotInfo) :
  allocated state -> 0 <= bankCount slot ->
  allocated (allocateBank state slot).
Proof.
  destruct state as [[done np] count].
  intros (Hc & Hnp & Hall & Hpairs) Hbc.
  unfold allocateBank.
  destruct (populated slot) eqn:Hpop; [|destruct (Z.ltb_spec np 0)];
    cbn [allocated]; (split; [lia|]); (split; [lia|]); split.
  - apply Forall_app. split.
    + eapply Forall_impl; [|exact Hall]. intros a Ha. cbv beta in Ha |- *.
      destruct (populated a); [|exact Ha]. intuition lia.
    + constructor; [|constructor]. cbv beta. cbn [populated firstBank bankCount].
      rewrite ?Hpop. unfold usesBank. cbn [firstBank bankCount]. lia.
  - apply ForallOrdPairs_snoc; [exact Hpairs|].
    eapply Forall_impl; [|exact Hall]. intros a Ha Hpa _ bank. cbv beta in Ha.
    rewrite Hpa in Ha. unfold usesBank. cbn [firstBank bankCount]. lia.
  - apply Forall_app. split.
    + eapply Forall_impl; [|exact Hall]. intros a Ha. cbv beta in Ha |- *.
      destruct (populated a); [|lia]. unfold usesBank in *. lia.
    + constructor; [|constructor]. cbv beta. cbn [populated firstBank].
      rewrite ?Hpop. lia.
  - apply ForallOrdPairs_snoc; [exact Hpairs|].
    apply Forall_forall. intros a _ _ Hpb. cbn [populated] in Hpb. congruence.
  - apply Forall_app. split; [exact Hall|].
    constructor; [|constructor]. cbv beta. cbn [populated firstBank].
    rewrite ?Hpop. lia.
  - apply ForallOrdPairs_snoc; [exact Hpairs|].
    apply Forall_forall. intros a _ _ Hpb. cbn [populated] in Hpb. congruence.
Qed.

Lemma allocateBanks_allocated (slots_ : list SlotInfo) :
  forall state, allocated state ->
  Forall (fun slot => 0 <= bankCount slot) slots_ ->
  allocated (fold_left allocateBank slots_ state).
Proof.
  induction slots_ as [|slot rest IH]; intros state Hstate Hall; [exact Hstate|].
  apply Forall_cons_iff in Hall. destruct Hall as [Hslot Hall].
  cbn [fold_left]. apply IH; [|exact Hall].
  apply allocateBank_allocated; assumption.
Qed.

(** X11.  The loop that allocates the banks gives the slots banks that do
    not overlap, provided that no slot has a negative bank count: two
    populated slots share no bank, all unpopulated slots get one and the
    same bank, which no populated slot uses, and every bank in use lies
    below the total bank count. *)
Theorem X11_allocateBanks_banks_do_not_overlap (slots_ : list SlotInfo) :
  Forall (fun slot => 0 <= bankCount slot) slots_ ->
  let '(done, notPopulatedBank, bankCount_) := allocateBanks slots_ in
  ForallOrdPairs disjointBanks done /\
  Forall (fun slot =>
            if populated slot
            then ~ usesBank slot notPopulatedBank /\
                 forall bank, usesBank slot bank -> 0 <= bank < bankCount_
            else firstBank slot = notPopulatedBank /\
                 0 <= notPopulatedBank < bankCount_) done.
Proof.
  intros Hall.
  assert (H : allocated (allocateBanks slots_)).
  { apply allocateBanks_allocated; [|exact Hall].
    cbn. repeat split; try lia; constructor. }
  destruct (allocateBanks slots_) as [[done np] count].
  destruct H as (Hc & Hnp & Hdone & Hpairs).
  split; [exact Hpairs|].
  eapply Forall_impl; [|exact Hdone]. intros a Ha. cbv beta in Ha |- *.
  destruct (populated a); [|lia].
  split; [tauto|]. unfold usesBank. intros bank Hb. lia.
Qed.

Lemma X11_witness_rom_and_banked :
  let '(done, notPopulatedBank, bankCount_) := allocateBanks romAndBankedSlots in
  ForallOrdPairs disjointBanks done /\
  Forall (fun slot =>
            if populated slot
            then ~ usesBank slot notPopulatedBank /\
                 forall bank, usesBank slot bank -> 0 <= bank < bankCount_
            else firstBank slot = notPopulatedBank /\
                 0 <= notPopulatedBank < bankCount_) done.
Proof.
  apply (X11_allocateBanks_banks_do_not_overlap romAndBankedSlots).
  repeat constructor; cbn; lia.
Defined.

(** *** decodeBankBits *)

Lemma toInt32_id (z : Z) : - 2 ^ 31 <= z < 2 ^ 31 -> Js.toInt32 (Some z) = z.
Proof.
  intros H. unfold Js.toInt32. rewrite Z.mod_small; lia.
Qed.

Lemma pow2_lt_31 (k : Z) : 0 <= k <= 30 -> 0 < 2 ^ k < 2 ^ 31.
Proof.
  intros H. split; [apply Z.pow_pos_nonneg; lia|].
  apply Z.pow_lt_mono_r; lia.
Qed.

Lemma shl_pow2 (k : Z) : 0 <= k < 30 -> shl (2 ^ k) 1 = 2 ^ (k + 1).
Proof.
  intros H. unfold shl. change (1 mod 32) with 1.
  rewrite Z.shiftl_mul_pow2 by lia. rewrite <- Z.pow_add_r by lia.
  apply toInt32_id. pose proof (pow2_lt_31 (k + 1)). lia.
Qed.

Lemma land_mask_testbit (byte bit : Z) :
  0 <= byte < 2 ^ 31 -> 0 <= bit < 32 ->
  (Z.land (Js.toInt32 (Some byte)) (shl 1 bit) =? 0) =
  negb (Z.testbit byte bit).
Proof.
  intros Hbyte Hbit. rewrite toInt32_id by lia.
  unfold shl. rewrite Z.mod_small by lia.
  rewrite Z.shiftl_mul_pow2, Z.mul_1_l by lia.
  destruct (Z.eq_dec bit 31) as [->|Hne].
  - change (Js.toInt32 (Some (2 ^ 31))) with (- 2 ^ 31).
    assert (Hhigh : Z.testbit byte 31 = false).
    { apply Z.bits_above_log2; [lia|].
      destruct (Z.eq_dec byte 0) as [->|]; [reflexivity|].
      apply Z.log2_lt_pow2; lia. }
    rewrite Hhigh. cbn [negb]. apply Z.eqb_eq.
    apply Z.bits_inj'. intros n Hn.
    rewrite Z.land_spec, Z.bits_0.
    destruct (Z.ltb_spec n 31).
    + replace (- 2 ^ 31) with (Z.shiftl (-1) 31) by reflexivity.
      rewrite Z.shiftl_spec_low by lia. apply andb_false_r.
    + rewrite (Z.bits_above_log2 byte n); [reflexivity|lia|].
      destruct (Z.eq_dec byte 0) as [->|]; [cbn; lia|].
      apply Z.log2_lt_pow2; [lia|].
      apply Z.lt_le_trans with (2 ^ 31); [lia|].
      apply Z.pow_le_mono_r; lia.
  - rewrite toInt32_id by (pose proof (pow2_lt_31 bit); lia).
    destruct (Z.testbit byte bit) eqn:Hb; cbn [negb].
    + apply Z.eqb_neq. intros Hz.
      assert (Hn : Z.testbit (Z.land byte (2 ^ bit)) bit = false)
        by (rewrite Hz; apply Z.bits_0).
      rewrite Z.land_spec, Hb, Z.pow2_bits_true in Hn by lia.
      discriminate.
    + apply Z.eqb_eq. apply Z.bits_inj'. intros n Hn.
      rewrite Z.land_spec, Z.bits_0, Z.pow2_bits_eqb by lia.
      destruct (Z.eqb_spec bit n) as [<-|]; [now rewrite Hb|].
      apply andb_false_r.
Qed.

Lemma decodeBankBitsLoop_bits (byte : Z) (bitmap : list Z) :
  0 <= byte < 2 ^ 31 ->
  forall k ret val,
  Forall (fun bit => 0 <= bit < 32) bitmap ->
  0 <= k -> k + Js.len bitmap <= 31 -> 0 <= ret < 2 ^ k ->
  (bitmap <> [] -> val = 2 ^ k) ->
  let r := decodeBankBitsLoop byte bitmap ret val in
  0 <= r < 2 ^ (k + Js.len bitmap) /\
  r mod 2 ^ k = ret /\
  forall b bit, nth_error bitmap b = Some bit ->
                Z.testbit r (k + Z.of_nat b) = Z.testbit byte bit.
Proof.
  intros Hbyte.
  induction bitmap as [|bit rest IH]; intros k ret val Hbits Hk Hlen Hret Hval r;
    unfold Js.len in *.
  - subst r. cbn [decodeBankBitsLoop List.length Z.of_nat].
    rewrite Z.add_0_r. repeat split; try lia.
    + apply Z.mod_small; lia.
    + intros [|b] bit' H; discriminate.
  - apply Forall_cons_iff in Hbits. destruct Hbits as [Hbit Hbits].
    assert (Hv : val = 2 ^ k) by (apply Hval; discriminate).
    subst r val.
    cbn [List.length] in Hlen |- *. rewrite Nat2Z.inj_succ in Hlen |- *.
    cbn [decodeBankBitsLoop]. cbv zeta.
    rewrite land_mask_testbit, negb_involutive by assumption.
    set (ret' := if Z.testbit byte bit then ret + 2 ^ k else ret).
    set (r := decodeBankBitsLoop byte rest ret' (shl (2 ^ k) 1)).
    pose proof (pow2_lt_31 k ltac:(lia)) as Hpow.
    assert (Hpow1 : 2 ^ (k + 1) = 2 * 2 ^ k)
      by (rewrite Z.pow_add_r by lia; lia).
    assert (Hret' : 0 <= ret' < 2 ^ (k + 1))
      by (subst ret'; destruct (Z.testbit byte bit); lia).
    assert (Hmod : ret' mod 2 ^ k = ret).
    { subst ret'. destruct (Z.testbit byte bit).
      - replace (ret + 2 ^ k) with (ret + 1 * 2 ^ k) by lia.
        rewrite Z.mod_add by lia. apply Z.mod_small; lia.
      - apply Z.mod_small; lia. }
    assert (Htest : Z.testbit ret' k = Z.testbit byte bit).
    { subst ret'. destruct (Z.testbit byte bit).
      - apply Z.testbit_true; [lia|].
        replace (ret + 2 ^ k) with (ret + 1 * 2 ^ k) by lia.
        rewrite Z.div_add by lia. rewrite Z.div_small by lia. reflexivity.
      - destruct (Z.eq_dec ret 0) as [->|]; [apply Z.bits_0|].
        apply Z.bits_above_log2; [lia|].
        apply Z.log2_lt_pow2; lia. }
    destruct (IH (k + 1) ret' (shl (2 ^ k) 1) Hbits) as (Hr & Hrmod & Hrbits);
      try lia.
    { intros Hne. apply shl_pow2.
      destruct rest; [contradiction|]. cbn [List.length] in Hlen. lia. }
    fold r in Hr, Hrmod, Hrbits.
    replace (k + Z.succ (Z.of_nat (List.length rest)))
      with (k + 1 + Z.of_nat (List.length rest)) by lia.
    split; [exact Hr|]. split.
    + transitivity ((r mod 2 ^ (k + 1)) mod 2 ^ k);
        [|rewrite Hrmod; exact Hmod].
      symmetry. apply Z.mod_mod_divide. exists 2. lia.
    + intros [|b] bit' Hnth.
      * injection Hnth as <-. cbn [Z.of_nat]. rewrite Z.add_0_r.
        rewrite <- Htest, <- Hrmod.
        rewrite Z.mod_pow2_bits_low by lia. reflexivity.
      * cbn [nth_error] in Hnth. rewrite Nat2Z.inj_succ.
        replace (k + Z.succ (Z.of_nat b)) with (k + 1 + Z.of_nat b) by lia.
        apply Hrbits. exact Hnth.
Qed.

(** X12.  decodeBankBits collects the bits of the byte that the bit map
    names: for a byte that is a non-negative 32 bit integer and a map of at
    most 31 bit numbers from 0 to 31, bit b of the result is bit bitmap[b]
    of the byte, and the result has no other bits. *)
Theorem X12_decodeBankBits_collects_the_mapped_bits (byte : Z) (bitmap : list Z) :
  0 <= byte < 2 ^ 31 ->
  Forall (fun bit => 0 <= bit < 32) bitmap ->
  Js.len bitmap <= 31 ->
  0 <= decodeBankBits byte bitmap < 2 ^ Js.len bitmap /\
  forall b bit, nth_error bitmap b = Some bit ->
                Z.testbit (decodeBankBits byte bitmap) (Z.of_nat b) =
                Z.testbit byte bit.
Proof.
  intros Hbyte Hbits Hlen.
  assert (Hret : 0 <= 0 < 2 ^ 0) by (cbn; lia).
  pose proof (decodeBankBitsLoop_bits byte bitmap Hbyte 0 0 1 Hbits
                (Z.le_refl 0) Hlen Hret (fun _ => eq_refl)) as H.
  cbv zeta in H. destruct H as (Hr & _ & Hrbits).
  split; [exact Hr|exact Hrbits].
Qed.

Lemma X12_witness_two_bits :
  0 <= decodeBankBits 0xA5 [7; 1] < 2 ^ Js.len [7; 1] /\
  forall b bit, nth_error [7; 1] b = Some bit ->
                Z.testbit (decodeBankBits 0xA5 [7; 1]) (Z.of_nat b) =
                Z.testbit 0xA5 bit.
Proof.
  apply (X12_decodeBankBits_collects_the_mapped_bits 0xA5 [7; 1]).
  - vm_compute. split; [discriminate|reflexivity].
  - repeat (apply Forall_cons; [lia|]). apply Forall_nil.
  - cbn. lia.
Defined.

End PagingProofs.

(** ** The ZEsarUX remote *)
Module ZesaruxProofs.
Import ZesaruxEmulator.
Local Open Scope string_scope.
Local Open Scope Z_scope.

(** *** Facts about findCallOrRst *)

(** A property checked for every number below [n] holds below [n]. *)
Lemma forall_below (P : Z -> bool) (n : nat) :
  forallb P (map Z.of_nat (seq 0 n)) = true ->
  forall z, 0 <= z < Z.of_nat n -> P z = true.
Proof.
  intros H z Hz. rewrite forallb_forall in H. apply H.
  apply in_map_iff. exists (Z.to_nat z). split; [lia|].
  apply in_seq. lia.
Qed.

Lemma toInt32_small (z : Z) :
  - 2 ^ 31 <= z < 2 ^ 31 -> Js.toInt32 (Some z) = z.
Proof.
  intros H. unfold Js.toInt32. rewrite Z.mod_small; lia.
Qed.

(** Reading back the bytes of a reply. *)
Lemma parseInt16_hex_prefix (c1 c2 : ascii) (r : string) (d1 d2 : Z) :
  Js.hexDigitValue c1 = Some d1 -> Js.hexDigitValue c2 = Some d2 ->
  Js.parseInt16 (String c1 (String c2 r))
  = match Js.hexDigits (String c1 (String c2 r)) None with
    | Some v => Some v
    | None => None
    end.
Proof.
  intros H1 H2.
  destruct c1 as [[] [] [] [] [] [] [] []];
    try (exfalso; vm_compute in H1; discriminate H1);
    try reflexivity;
    destruct c2 as [[] [] [] [] [] [] [] []];
    try (exfalso; vm_compute in H2; discriminate H2);
    reflexivity.
Qed.

Lemma hexDigitValue_hexDigit (upper : bool) (d : Z) :
  0 <= d < 16 -> Js.hexDigitValue (hexDigit upper d) = Some d.
Proof.
  intros Hd.
  pose (P := fun d => match Js.hexDigitValue (hexDigit upper d) with
                      | Some v => v =? d
                      | None => false
                      end).
  assert (H : P d = true).
  { apply (forall_below P 16); [|lia]. destruct upper; vm_compute; reflexivity. }
  unfold P in H. destruct (Js.hexDigitValue (hexDigit upper d)); [|discriminate].
  apply Z.eqb_eq in H. now subst.
Qed.

Lemma hexDigits_hexByte (upper : bool) (b : Z) (r : string) (acc : option Z) :
  0 <= b < 256 ->
  Js.hexDigits (hexByte upper b ++ r) acc
  = Js.hexDigits r
      (Some (256 * match acc with Some a => a | None => 0 end + b)).
Proof.
  intros Hb. unfold hexByte. cbn [Js.hexDigits String.append].
  rewrite !hexDigitValue_hexDigit.
  - f_equal. f_equal. pose proof (Z.div_mod b 16 ltac:(lia)).
    destruct acc; lia.
  - apply Z.mod_pos_bound. lia.
  - split; [apply Z.div_pos; lia|apply Z.div_lt_upper_bound; lia].
Qed.

Lemma parseInt16_hexByte (upper : bool) (b : Z) (r : string) :
  0 <= b < 256 ->
  Js.parseInt16 (hexByte upper b ++ r)
  = match Js.hexDigits r (Some b) with
    | Some v => Some v
    | None => None
    end.
Proof.
  intros Hb.
  assert (H1 : 0 <= b / 16 < 16)
    by (split; [apply Z.div_pos; lia|apply Z.div_lt_upper_bound; lia]).
  assert (H2 : 0 <= b mod 16 < 16) by (apply Z.mod_pos_bound; lia).
  change (hexByte upper b ++ r)%string
    with (String (hexDigit upper (b / 16))
            (String (hexDigit upper (b mod 16)) r)).
  rewrite (parseInt16_hex_prefix _ _ r _ _
             (hexDigitValue_hexDigit upper _ H1)
             (hexDigitValue_hexDigit upper _ H2)).
  change (String (hexDigit upper (b / 16))
            (String (hexDigit upper (b mod 16)) r))
    with (hexByte upper b ++ r)%string.
  rewrite hexDigits_hexByte by auto. now rewrite Z.mul_0_r, Z.add_0_l.
Qed.

Lemma land_low_byte (hi lo m : Z) :
  0 <= lo < 256 -> 0 <= m < 256 -> Z.land (256 * hi + lo) m = Z.land lo m.
Proof.
  intros Hlo Hm.
  assert (Hmask : Z.land (Z.ones 8) m = m).
  { rewrite Z.land_comm, Z.land_ones by lia. apply Z.mod_small. simpl. lia. }
  rewrite <- Hmask at 1. rewrite Z.land_assoc, Z.land_ones by lia.
  f_equal. change (2 ^ 8) with 256.
  rewrite Z.add_comm, Z.mul_comm, Z.mod_add by lia. apply Z.mod_small. lia.
Qed.

Lemma shiftr_high_byte (hi lo : Z) :
  0 <= lo < 256 -> Z.shiftr (256 * hi + lo) 8 = hi.
Proof.
  intros Hlo. rewrite Z.shiftr_div_pow2 by lia. change (2 ^ 8) with 256.
  symmetry. apply Z.div_unique with (r := lo); lia.
Qed.

Lemma lor_bytes (hi lo : Z) :
  0 <= lo < 256 -> Z.lor (Z.shiftl hi 8) lo = 256 * hi + lo.
Proof.
  intros Hlo. rewrite Z.shiftl_mul_pow2 by lia. change (2 ^ 8) with 256.
  assert (Hdisj : Z.land (hi * 256) lo = 0).
  { replace (hi * 256) with (256 * hi + 0) by lia.
    rewrite land_low_byte by lia. apply Z.land_0_l. }
  rewrite <- Z.lxor_lor, <- Z.add_nocarry_lxor by auto. lia.
Qed.

Lemma rstOf_classify (b1 b2 : Z) :
  0 <= b1 < 256 -> 0 <= b2 < 256 ->
  rstOf 3 (Some (256 * b1 + b2))
  = Some (if isRstOpcode b2 then (1, Z.land b2 0x38)
          else if isRstOpcode b1 then (2, Z.land b1 0x38)
          else (0, 0)).
Proof.
  intros H1 H2. unfold rstOf, isRstOpcode.
  assert (Hw : Js.toInt32 (Some (256 * b1 + b2)) = 256 * b1 + b2)
    by (apply toInt32_small; lia).
  assert (Hb1 : Js.toInt32 (Some b1) = b1) by (apply toInt32_small; lia).
  cbn [rstLoop]. unfold Js.neNum, Js.eqNum. rewrite Hw.
  rewrite !land_low_byte, shiftr_high_byte by lia.
  rewrite Hb1.
  replace (Z.shiftr b1 8) with 0
    by (symmetry; rewrite Z.shiftr_div_pow2 by lia; apply Z.div_small; simpl; lia).
  assert (Hne : forall z, z <> 0 -> negb (z =? 0) = true)
    by (intros z Hz; now rewrite (proj2 (Z.eqb_neq _ _) Hz)).
  destruct (Z.eqb_spec (256 * b1 + b2) 0) as [Hz|Hnz]; cbn [negb].
  - assert (b1 = 0) by lia. assert (b2 = 0) by lia. subst. reflexivity.
  - destruct (Z.land b2 199 =? 199) eqn:E2.
    + rewrite (Hne _ Hnz), Hw, land_low_byte by lia. reflexivity.
    + destruct (Z.eqb_spec b1 0) as [->|Hb]; cbn [negb]; [reflexivity|].
      destruct (Z.land b1 199 =? 199) eqn:E1; [|reflexivity].
      rewrite (Hne _ Hb), Hb1. reflexivity.
Qed.

(** More fuel does not change the result of the loop. *)
Lemma rstLoop_more_fuel (f : nat) : forall opc12 k r,
  rstLoop f opc12 k = Some r -> rstLoop (S f) opc12 k = Some r.
Proof.
  induction f as [|f IH]; intros opc12 k r H; [discriminate|].
  simpl in H. change (rstLoop (S (S f)) opc12 k) with
    (if Js.neNum opc12 0 then
       if Z.land (Js.toInt32 opc12) 0xC7 =? 0xC7 then Some (opc12, k)
       else rstLoop (S f) (Some (Z.shiftr (Js.toInt32 opc12) 8)) (k + 1)
     else Some (opc12, k)).
  destruct (Js.neNum opc12 0); auto.
  destruct (Z.land (Js.toInt32 opc12) 0xC7 =? 0xC7); auto.
Qed.

Lemma rstOf_more_fuel (f f' : nat) opc12 r :
  (f <= f')%nat -> rstOf f opc12 = Some r -> rstOf f' opc12 = Some r.
Proof.
  induction 1 as [|f' Hle IH]; auto.
  intros H. specialize (IH H). unfold rstOf in *.
  destruct (rstLoop f' opc12 1) as [r'|] eqn:E; [|discriminate].
  now rewrite (rstLoop_more_fuel _ _ _ _ E).
Qed.

(** The handler on the reply for three bytes. *)
Lemma findCallOrRstReply_classify (fuel : nat) (upper : bool) (b0 b1 b2 : Z) :
  (3 <= fuel)%nat ->
  0 <= b0 < 256 -> 0 <= b1 < 256 -> 0 <= b2 < 256 ->
  findCallOrRstReply fuel
    (hexByte upper b0 ++ hexByte upper b1 ++ hexByte upper b2 ++ EmptyString)
  = Some (classify b0 b1 b2).
Proof.
  intros Hfuel H0 H1 H2. unfold findCallOrRstReply.
  replace (Js.substr _ 0 2) with (hexByte upper b0 ++ EmptyString)
    by reflexivity.
  replace (Js.substr _ 2 4)
    with (hexByte upper b1 ++ hexByte upper b2 ++ EmptyString)
    by reflexivity.
  rewrite !parseInt16_hexByte, hexDigits_hexByte by auto.
  cbn [Js.hexDigits].
  assert (Hw : Js.toInt32 (Some (256 * b1 + b2)) = 256 * b1 + b2)
    by (apply toInt32_small; lia).
  assert (Hb0 : Js.toInt32 (Some b0) = b0) by (apply toInt32_small; lia).
  rewrite Hb0, Hw. unfold classify.
  change (Js.eqNum (Some b0) 205 || (Z.land b0 199 =? 196))
    with (isCallOpcode b0).
  destruct (isCallOpcode b0).
  - (* CALL *)
    rewrite shiftr_high_byte, land_low_byte, lor_bytes by lia.
    change 255 with (Z.ones 8). rewrite Z.land_ones by lia.
    rewrite Z.mod_small by (simpl; lia).
    rewrite Z.shiftl_mul_pow2 by lia. do 2 f_equal. simpl (2 ^ 8). lia.
  - (* RST, or neither *)
    change (match rstLoop fuel (Some (256 * b1 + b2)) 1 with
            | Some (opc12, k) =>
                if Js.neNum opc12 0
                then Some (k, Z.land (Js.toInt32 opc12) 56)
                else Some (0, 0)
            | None => None
            end) with (rstOf fuel (Some (256 * b1 + b2))).
    apply (rstOf_more_fuel 3 fuel); auto. apply rstOf_classify; auto.
Qed.

(** *** C5 *)

(** C5 (findCallOrRst).  For every return address [addr] and every
    memory, with [b0 b1 b2] the three bytes that end at [addr]: when [b0] is
    0xCD or has the bits 11xxx100 the answer is a CALL (k=3) to
    [(b2<<8)|b1], whatever [b1] and [b2] look like; otherwise, when the
    last byte [b2] has the bits 11xxx111 the answer is a RST (k=1) with
    [p = b2 & 0b00111000], else when [b1] has these bits it is a RST (k=2)
    with [p = b1 & 0b00111000]; otherwise the answer is k=0 with address 0,
    and the caller then adds no frame to the call stack.  The loop of the
    function ends within three iterations. *)
Theorem C5_findCallOrRst_classifies
  (getLabelsForNumber : Z -> list string) (getHexString : Z -> Z -> string)
  (fuel : nat) (upper : bool) (mem : Z -> Z) (addr : Z) :
  (3 <= fuel)%nat ->
  let b0 := mem (addr - 3) mod 256 in
  let b1 := mem (addr - 2) mod 256 in
  let b2 := mem (addr - 1) mod 256 in
  let found := findCallOrRst fuel upper mem addr in
  found = Some (classify b0 b1 b2) /\
  (isCallOpcode b0 = true -> found = Some (3, Z.lor (Z.shiftl b2 8) b1)) /\
  (isCallOpcode b0 = false -> isRstOpcode b2 = true ->
     found = Some (1, Z.land b2 0x38)) /\
  (isCallOpcode b0 = false -> isRstOpcode b2 = false ->
   isRstOpcode b1 = true ->
     found = Some (2, Z.land b1 0x38)) /\
  (isCallOpcode b0 = false -> isRstOpcode b2 = false ->
   isRstOpcode b1 = false ->
     found = Some (0, 0) /\
     forall zStackAddress index,
       option_map
         (callStackEntry getLabelsForNumber getHexString
            addr zStackAddress index) found
       = Some (PushOnLastCallFrame addr)).
Proof.
  intros Hfuel b0 b1 b2 found.
  assert (Hfound : found = Some (classify b0 b1 b2)).
  { unfold found, findCallOrRst. cbn [readMemory].
    replace (addr - 3 + 1) with (addr - 2) by lia.
    replace (addr - 2 + 1) with (addr - 1) by lia.
    apply findCallOrRstReply_classify; auto;
      apply Z.mod_pos_bound; lia. }
  rewrite Hfound. unfold classify.
  split; [reflexivity|]. split; [|split; [|split]].
  - intros ->. reflexivity.
  - intros -> ->. reflexivity.
  - intros -> -> ->. reflexivity.
  - intros -> -> ->. split; reflexivity.
Qed.

(** A CALL whose operand bytes both look like a RST is a CALL. *)
Lemma C5_witness_call_before_rst :
  findCallOrRst 3 true (memAt 0xCD 0xFF 0xC7) 0x9000 = Some (3, 0xC7FF).
Proof.
  exact (proj1 (proj2 (C5_findCallOrRst_classifies
                         (fun _ => []) (fun _ _ => EmptyString)
                         3 true (memAt 0xCD 0xFF 0xC7) 0x9000
                         (le_n 3)))
               eq_refl).
Defined.

(** The examples of the specification. *)
Example findCallOrRst_call :
  findCallOrRst 3 false (memAt 0xCD 0x00 0x80) 0x9000 = Some (3, 0x8000).
Proof. reflexivity. Qed.

Example findCallOrRst_rst_0 :
  findCallOrRst 3 true (memAt 0x00 0x00 0xC7) 0x9000 = Some (1, 0x00).
Proof. reflexivity. Qed.

Example findCallOrRst_neither :
  findCallOrRst 3 true (memAt 0x12 0x34 0x56) 0x9000 = Some (0, 0).
Proof. reflexivity. Qed.

(** An instruction that starts with CALL or RST does not start with RET. *)
Lemma call_or_rst_is_not_ret (instr : string) :
  Js.startsWith instr "CALL" || Js.startsWith instr "RST" = true ->
  Js.startsWith instr "RET" = false.
Proof.
  unfold Js.startsWith.
  destruct instr as [|c1 [|c2 r]]; cbn [prefix]; intros H.
  - reflexivity.
  - destruct (ascii_dec "R" c1); reflexivity.
  - destruct (ascii_dec "R" c1) as [<-|]; [|reflexivity].
    destruct (ascii_dec "E" c2) as [<-|]; [|reflexivity].
    exfalso. revert H.
    destruct (ascii_dec "C" "R"); [discriminate|].
    destruct (ascii_dec "S" "E"); discriminate.
Qed.

(** *** C6 *)

(** C6, as amended (handleReverseDebugStackFwrd).  On a forward step
    from line L to an existing successor N, where the instruction of L is a
    CALL or a RST and SP decreased from L to N, the top frame is popped, a
    frame with the pc and sp of L is pushed whose name is CALL or RST
    followed by the first label of the pc of N, or, when that address has
    no label, by its four hexadecimal digits and the letter h; then the new
    top frame (pc of N, sp of N, PC) is pushed.  When N does not exist the
    virtual stack is discarded. *)
Theorem C6_handleReverseDebugStackFwrd_pushes_call_frame
  (getInstruction getRegisters : string -> string)
  (parsePC parseSP : string -> Z)
  (getLabelsForNumber : Z -> list string) (getHexString : Z -> Z -> string)
  (currentLine nextLine : string) (top : Frame) (rest : list Frame) :
  let fwrd := handleReverseDebugStackFwrd getInstruction getRegisters
                parsePC parseSP getLabelsForNumber getHexString in
  let instr := getInstruction currentLine in
  let L := getRegisters currentLine in
  let N := getRegisters nextLine in
  truthy currentLine = true ->
  truthy nextLine = true ->
  Js.startsWith instr "CALL" || Js.startsWith instr "RST" = true ->
  parseSP L > parseSP N ->
  (exists label,
     fwrd currentLine (Some nextLine) (Some (top :: rest))
     = Returned
         (Some (newFrame (parsePC N) (parseSP N) "PC"
                :: newFrame (parsePC L) (parseSP L)
                     ((if Js.startsWith instr "CALL" then "CALL " else "RST ")
                      ++ label)
                :: rest)) /\
     (forall l ls, getLabelsForNumber (parsePC N) = l :: ls -> label = l) /\
     (getLabelsForNumber (parsePC N) = [] ->
        label = getHexString (parsePC N) 4 ++ "h")) /\
  (forall st, fwrd currentLine None st = Returned None) /\
  (forall st, fwrd currentLine (Some EmptyString) st = Returned None).
Proof.
  intros fwrd instr L N Hcur Hnext Hcall Hsp.
  split; [|split].
  - exists (labelOrHex getLabelsForNumber getHexString (parsePC N)).
    split; [|split].
    + unfold fwrd, handleReverseDebugStackFwrd.
      rewrite Hcur, Hnext. cbn [negb].
      fold instr L N.
      rewrite (call_or_rst_is_not_ret instr Hcall), Hcall.
      replace (parseSP L >? parseSP N) with true
        by (symmetry; apply Z.gtb_lt; lia).
      reflexivity.
    + intros l ls Hl. unfold labelOrHex. now rewrite Hl.
    + intros Hl. unfold labelOrHex. now rewrite Hl.
  - intros st. unfold fwrd, handleReverseDebugStackFwrd.
    now rewrite Hcur.
  - intros st. unfold fwrd, handleReverseDebugStackFwrd.
    now rewrite Hcur.
Qed.

(** The scenario of the specification with a symbol table that names
    0x8000: from the live stack with the single frame (0x9000, 0xFF00, PC),
    after the CALL to 0x8000 that decreased SP by 2. *)
Lemma C6_witness_call_L8000 :
  exists label,
    handleReverseDebugStackFwrd demoInstruction demoRegisters demoPC demoSP
      labelsL8000 hexString lineCall (Some lineCallee)
      (Some [newFrame 0x9000 0xFF00 "PC"])
    = Returned (Some [newFrame 0x8000 0xFEFE "PC";
                      newFrame 0x9000 0xFF00 ("CALL " ++ label)]) /\
    (forall l ls, labelsL8000 0x8000 = l :: ls -> label = l) /\
    (labelsL8000 0x8000 = [] -> label = hexString 0x8000 4 ++ "h").
Proof.
  exact (proj1 (C6_handleReverseDebugStackFwrd_pushes_call_frame
                  demoInstruction demoRegisters demoPC demoSP
                  labelsL8000 hexString lineCall lineCallee
                  (newFrame 0x9000 0xFF00 "PC") []
                  eq_refl eq_refl eq_refl eq_refl)).
Defined.

(** With the symbol L8000 the pushed frame is named CALL L8000. *)
Example fwrd_call_with_symbol :
  handleReverseDebugStackFwrd demoInstruction demoRegisters demoPC demoSP
    labelsL8000 hexString lineCall (Some lineCallee)
    (Some [newFrame 0x9000 0xFF00 "PC"])
  = Returned (Some [newFrame 0x8000 0xFEFE "PC";
                    newFrame 0x9000 0xFF00 "CALL L8000"]).
Proof. reflexivity. Qed.

(** C6 as stated fails: in the scenario of the specification, when the
    symbol table has no label for 0x8000, the pushed frame is named
    CALL 8000h and not CALL L8000. *)
Lemma C6_counterexample_hexadecimal_label :
  handleReverseDebugStackFwrd demoInstruction demoRegisters demoPC demoSP
    noLabels hexString lineCall (Some lineCallee)
    (Some [newFrame 0x9000 0xFF00 "PC"])
  = Returned (Some [newFrame 0x8000 0xFEFE "PC";
                    newFrame 0x9000 0xFF00 "CALL 8000h"]) /\
  handleReverseDebugStackFwrd demoInstruction demoRegisters demoPC demoSP
    noLabels hexString lineCall (Some lineCallee)
    (Some [newFrame 0x9000 0xFF00 "PC"])
  <> Returned (Some [newFrame 0x8000 0xFEFE "PC";
                     newFrame 0x9000 0xFF00 "CALL L8000"]).
Proof.
  split; [reflexivity|]. vm_compute. intros H. discriminate H.
Qed.

(** *** Facts about the pool of breakpoint ids *)

Lemma in_countUp (from to i : Z) : In i (countUp from to) <-> from <= i <= to.
Proof.
  unfold countUp. rewrite in_map_iff. split.
  - intros (n & <- & Hn). apply in_seq in Hn. lia.
  - intros Hi. exists (Z.to_nat (i - from)). split; [lia|].
    apply in_seq. lia.
Qed.

(** initBreakpoints fills the pool with the ids 1 to 99: the id 100 of
    the step breakpoint is not among them. *)
Lemma initBreakpoints_pool (e : Emulator) :
  freeBreakpointIds (initBreakpoints e) = countUp 1 MAX_USED_BREAKPOINTS /\
  (forall id, In id (freeBreakpointIds (initBreakpoints e)) <-> 1 <= id <= 99) /\
  ~ In STEP_BREAKPOINT_ID (freeBreakpointIds (initBreakpoints e)).
Proof.
  assert (H : freeBreakpointIds (initBreakpoints e)
              = countUp 1 MAX_USED_BREAKPOINTS) by reflexivity.
  split; [exact H|]. rewrite H. split.
  - intros id. apply in_countUp.
  - rewrite in_countUp. unfold STEP_BREAKPOINT_ID, MAX_USED_BREAKPOINTS,
      MAX_ZESARUX_BREAKPOINTS. lia.
Qed.

(** With an empty pool setBreakpoint returns 0 and changes nothing: no
    exception, no command, no warning, and the breakpoint object is left as
    it is. *)
Lemma setBreakpoint_no_free_id
  (getHexString : Z -> Z -> string) (convert : string -> string)
  (ref : nat) (e : Emulator) :
  freeBreakpointIds e = [] -> log (objects e ref) = None ->
  setBreakpoint getHexString convert ref e = (0, e).
Proof.
  intros Hfree Hlog. unfold setBreakpoint. rewrite Hlog, Hfree.
  unfold convertCondition.
  destruct (negb (truthy (condition (objects e ref)))
            || (String.length (condition (objects e ref)) =? 0)%nat);
    reflexivity.
Qed.

(** setBreakpoint hands out the first id of the pool. *)
Lemma setBreakpoint_takes_first_id
  (getHexString : Z -> Z -> string) (convert : string -> string)
  (ref : nat) (e : Emulator) (id : Z) (free : list Z) :
  freeBreakpointIds e = id :: free -> log (objects e ref) = None ->
  let r := setBreakpoint getHexString convert ref e in
  fst r = id /\
  freeBreakpointIds (snd r) = free /\
  breakpoints (snd r) = (breakpoints e ++ [ref])%list /\
  bpId (objects (snd r) ref) = id.
Proof.
  intros Hfree Hlog. unfold setBreakpoint. rewrite Hlog, Hfree.
  unfold convertCondition.
  destruct (negb (truthy (condition (objects e ref)))
            || (String.length (condition (objects e ref)) =? 0)%nat);
    repeat match goal with
           | |- context [if ?c then _ else _] => destruct c
           end;
    cbn [fst snd send freeBreakpointIds breakpoints objects bpId];
    unfold setObject; rewrite Nat.eqb_refl; auto.
Qed.

(** What setWatchpoints sends for one watchpoint without conditions. *)
Lemma setWatchpoints_spec (wps : list GenericWatchpoint.t) : forall e,
  let e' := fst (setWatchpoints wps e) in
  sent e' = (sent e ++ map armCommand
                         (filter (fun wp => negb (hasConditions wp)) wps))%list /\
  warnings e' = warnings e /\
  freeBreakpointIds e' = freeBreakpointIds e /\
  breakpoints e' = breakpoints e.
Proof.
  unfold setWatchpoints. cbn [fst].
  induction wps as [|wp r IH]; intros e.
  - cbn. rewrite app_nil_r. auto.
  - cbn [fold_left filter]. unfold hasConditions at 1.
    destruct (0 <? String.length (GenericWatchpoint.conditions wp))%nat.
    + apply IH.
    + cbn [negb map].
      match goal with
      | |- context [fold_left _ r ?e1] => destruct (IH e1) as (H1 & H2 & H3 & H4)
      end.
      rewrite H1, H2, H3, H4. cbn [send sent warnings freeBreakpointIds breakpoints].
      rewrite <- app_assoc. repeat split. do 2 f_equal.
      unfold armCommand.
      destruct (Js.indexOf (GenericWatchpoint.access wp) "r" >=? 0),
               (Js.indexOf (GenericWatchpoint.access wp) "w" >=? 0);
        reflexivity.
Qed.

(** *** C8, C9 and C10 *)

(** removeBreakpoint puts the index of the breakpoint in the array of
    breakpoints into the pool. *)
Lemma removeBreakpoint_frees_index (ref : nat) (e : Emulator) :
  indexOfRef (breakpoints e) ref <> -1 ->
  exists e',
    removeBreakpoint ref e = Returned e' /\
    freeBreakpointIds e'
    = (freeBreakpointIds e ++ [indexOfRef (breakpoints e) ref])%list.
Proof.
  intros Hidx. unfold removeBreakpoint. cbn [send breakpoints].
  rewrite (proj2 (Z.eqb_neq _ _) Hidx).
  eexists. split; reflexivity.
Qed.


(** C8 (setBreakpoint without a free id), the code at the failing input.
    After initBreakpoints and 99 breakpoints the pool is empty.  The next
    setBreakpoint returns 0 without an exception, a command or a warning,
    but it leaves the address of the breakpoint as it is, so that the
    breakpoint still counts as verified; the logpoint path of the same
    method, which returns 0 as well, sets the address to -1 (unverified). *)
Theorem C8_setBreakpoint_no_free_id_stays_verified :
  let r := setBreakpoint hexString (fun c => c) 99 exhausted in
  let r' := setBreakpoint hexString (fun c => c) 100 exhausted in
  freeBreakpointIds exhausted = [] /\
  fst r = 0 /\
  warnings (snd r) = warnings exhausted /\
  sent (snd r) = sent exhausted /\
  address (objects (snd r) 99) = 0x8063 /\
  verified (objects (snd r) 99) = true /\
  fst r' = 0 /\
  verified (objects (snd r') 100) = false.
Proof.
  assert (Hfree : freeBreakpointIds exhausted = []) by (vm_compute; reflexivity).
  assert (Hlog : log (objects exhausted 99) = None) by (vm_compute; reflexivity).
  intros r r'.
  assert (Hr : r = (0, exhausted))
    by (apply setBreakpoint_no_free_id; assumption).
  rewrite Hr. cbn [fst snd].
  split; [assumption|]. split; [reflexivity|]. split; [reflexivity|].
  split; [reflexivity|].
  repeat split; vm_compute; reflexivity.
Qed.

(** C9, as amended (setWatchpoints).  A watchpoint with a non-empty
    condition is skipped without a word: setWatchpoints sends no command
    for it and emits no warning, and it goes on with the next watchpoint.
    The watchpoints without conditions are armed, one set-membreakpoint
    command each, in the order of the list, and the handler gets the list
    as it was passed. *)
Theorem C9_setWatchpoints_skips_conditions_silently
  (watchPoints : list GenericWatchpoint.t) (e : Emulator) :
  let r := setWatchpoints watchPoints e in
  sent (fst r)
  = (sent e ++ map armCommand
                 (filter (fun wp => negb (hasConditions wp)) watchPoints))%list /\
  warnings (fst r) = warnings e /\
  snd r = watchPoints.
Proof.
  destruct (setWatchpoints_spec watchPoints e) as (H1 & H2 & _).
  repeat split; assumption.
Qed.

(** C9 as stated fails: for a watchpoint with a condition no warning is
    emitted (and no command is sent). *)
Lemma C9_counterexample_no_warning :
  let wp := GenericWatchpoint.mk 0x5000 1 "r" "A>0" in
  let e := fst (setWatchpoints [wp] emulator0) in
  hasConditions wp = true /\ warnings e = [] /\ sent e = [].
Proof. repeat split. Qed.

(** C10 (removeBreakpoint), the code at the failing input.  After
    initBreakpoints the first breakpoint gets the id 1.  Removing it puts
    its index in the array of breakpoints, which is 0, into the pool, and
    not its id: the pool then holds 2..99 and 0, and the id 1 is lost. *)
Theorem C10_removeBreakpoint_frees_index_not_id :
  let r := setBreakpoint hexString (fun c => c) 0 (initBreakpoints emulator0) in
  fst r = 1 /\
  bpId (objects (snd r) 0) = 1 /\
  exists e,
    removeBreakpoint 0 (snd r) = Returned e /\
    freeBreakpointIds e = (countUp 2 99 ++ [0])%list /\
    In 0 (freeBreakpointIds e) /\
    ~ In 1 (freeBreakpointIds e).
Proof.
  intros r.
  assert (Hpool : freeBreakpointIds (initBreakpoints emulator0)
                  = 1 :: countUp 2 99) by reflexivity.
  destruct (setBreakpoint_takes_first_id hexString (fun c => c) 0
              (initBreakpoints emulator0) 1 (countUp 2 99) Hpool eq_refl)
    as (Hid & Hfree & Hbps & HbpId).
  fold r in Hid, Hfree, Hbps, HbpId.
  split; [exact Hid|]. split; [exact HbpId|].
  destruct (removeBreakpoint_frees_index 0 (snd r)) as (e & He & Hpush).
  { rewrite Hbps. discriminate. }
  exists e. split; [exact He|].
  rewrite Hpush, Hfree, Hbps. split; [reflexivity|].
  change (indexOfRef ([] ++ [0%nat]) 0) with 0.
  rewrite !in_app_iff, !in_countUp. simpl. lia.
Qed.

End ZesaruxProofs.
